(** * Attestation policy and mutual-identity verification

    A shallow embedding of the verification logic of the SPIRE/TPM
    demonstration repository:

    - [phase_4_tpm/tests/test_tpm_setup.py]: the selector validator, the
      parent-ID check, the status report, the agent identity-format
      validator, the AK/EK gate and the two PCR comparison functions;
    - [phase_4_tpm/mtls_demo.py]: [extract_spiffe_id] and [run_server];
    - [phase_1/mtls_demo.py]: the single-accept [run_server].

    Python [str] values are modelled as [string]; every text the functions
    below inspect is ASCII, and [lower] acts on the letters 'A'..'Z' as
    [str.lower] does on ASCII text. *)

From Stdlib Require Import Bool List Arith Lia Ascii String.
Import ListNotations.
Open Scope string_scope.
Open Scope bool_scope.

(** ** Python string operations used by the sources *)

Module PyStr.

(** [c] lies in the inclusive range [lo-hi] of character codes. *)
Definition in_range (lo hi c : ascii) : bool :=
  ((nat_of_ascii lo <=? nat_of_ascii c) && (nat_of_ascii c <=? nat_of_ascii hi))%nat.

Definition lower_char (c : ascii) : ascii :=
  if in_range "A" "Z" c then ascii_of_nat (nat_of_ascii c + 32) else c.

(** [s.lower()] *)
Fixpoint lower (s : string) : string :=
  match s with
  | EmptyString => EmptyString
  | String c s' => String (lower_char c) (lower s')
  end.

(** [s.startswith(p)] *)
Fixpoint startswith (s p : string) {struct p} : bool :=
  match p with
  | EmptyString => true
  | String a p' =>
      match s with
      | EmptyString => false
      | String b s' => Ascii.eqb a b && startswith s' p'
      end
  end.

(** [needle in hay]: substring test. *)
Fixpoint str_in (needle hay : string) : bool :=
  startswith hay needle ||
  match hay with
  | EmptyString => false
  | String _ hay' => str_in needle hay'
  end.

(** [s.partition(sep)] for a one-character separator, [None] when the
    separator does not occur. *)
Fixpoint cut (sep : ascii) (s : string) : option (string * string) :=
  match s with
  | EmptyString => None
  | String c s' =>
      if Ascii.eqb c sep then Some (EmptyString, s')
      else match cut sep s' with
           | Some (a, b) => Some (String c a, b)
           | None => None
           end
  end.

(** [s.split(sep, maxsplit)] for a one-character separator: at most
    [maxsplit] cuts, the remainder kept whole as the last piece. *)
Fixpoint split (sep : ascii) (maxsplit : nat) (s : string) : list string :=
  match maxsplit with
  | O => [s]
  | S n =>
      match cut sep s with
      | None => [s]
      | Some (a, b) => a :: split sep n b
      end
  end.

(** No character of [s] is [c]. *)
Fixpoint free_of (c : ascii) (s : string) : bool :=
  match s with
  | EmptyString => true
  | String d s' => negb (Ascii.eqb d c) && free_of c s'
  end.

(** Every character of [s] satisfies [p]. *)
Fixpoint all_chars (p : ascii -> bool) (s : string) : bool :=
  match s with
  | EmptyString => true
  | String c s' => p c && all_chars p s'
  end.

End PyStr.

Import PyStr.

(** ** tests/test_tpm_setup.py *)

Module TpmSetup.

(** [simulate_ak_ek_validation]: Python's [x and y] yields [x] when [x] is
    falsy and [y] otherwise. *)
Definition py_and (x y : bool) : bool := if x then y else x.

Definition simulate_ak_ek_validation
    (ak_cert_valid ek_pub_key_valid ak_signed_by_ek : bool) : bool :=
  py_and (py_and ak_cert_valid ek_pub_key_valid) ak_signed_by_ek.

(** [simulate_pcr_match_check] *)
Definition simulate_pcr_match_check
    (registered_pcr_hash current_pcr_hash : string) : bool :=
  let registered_normalized := lower registered_pcr_hash in
  let current_normalized := lower current_pcr_hash in
  String.eqb registered_normalized current_normalized.

(** [simulate_pcr_mismatch_check]: the pair [(svid_denied, error_message)]. *)
Definition simulate_pcr_mismatch_check
    (registered_pcr_hash current_pcr_hash : string) : bool * string :=
  let registered_normalized := lower registered_pcr_hash in
  let current_normalized := lower current_pcr_hash in
  if String.eqb registered_normalized current_normalized then
    (false, "")
  else
    let error_message :=
      "PCR mismatch detected: " ++
      "Expected: " ++ registered_normalized ++ ", " ++
      "Actual: " ++ current_normalized in
    (true, error_message).

(** [simulate_verification_status_report]: the pair
    [(status_message, is_active)]. *)
Definition simulate_verification_status_report
    (tpm_in_parent_id tpm_in_logs tpm_device_accessible : bool)
    : string * bool :=
  let is_active := tpm_in_parent_id in
  let status_message :=
    if is_active then
      if tpm_in_logs && tpm_device_accessible then
        "TPM ATTESTATION IS ACTIVE - All checks passed"
      else if tpm_in_logs then
        "TPM ATTESTATION IS ACTIVE - Device accessibility check failed"
      else
        "TPM ATTESTATION IS ACTIVE - Some checks failed"
    else
      if tpm_device_accessible then
        "TPM ATTESTATION IS INACTIVE - TPM device available but not configured"
      else
        "TPM ATTESTATION IS INACTIVE - TPM device not accessible" in
  (status_message, is_active).

(** [simulate_agent_parent_id_check] *)
Definition simulate_agent_parent_id_check (agent_spiffe_id : string) : bool :=
  let normalized_id := lower agent_spiffe_id in
  if str_in "tpm" normalized_id then
    if str_in "spiffe://" normalized_id then
      let parts := split "/" 3 normalized_id in
      if (4 <=? List.length parts)%nat then
        let path := nth 3 parts "" in
        str_in "tpm" path
      else if (List.length parts =? 3)%nat then
        str_in "tpm" (nth 2 parts "")
      else true
    else true
  else false.

End TpmSetup.

Import TpmSetup.

(** ** The fragment of Python's [re] the validators use

    A backtracking matcher over the constructs that occur in the two
    patterns of the test module: anchors, literal text, bracket classes, the
    greedy [+] on a class, alternation, concatenation and capturing groups.
    Without [re.MULTILINE], [^] holds at position 0 only and [$] holds at the
    end of the subject or just before a line feed that ends it. *)

Module PyRe.

Definition charset := list (ascii * ascii).

Definition in_class (cs : charset) (c : ascii) : bool :=
  existsb (fun r => in_range (fst r) (snd r) c) cs.

Inductive regex : Type :=
| Bol
| Eol
| Lit (l : string)
| Cls (cs : charset)
| Plus (cs : charset)
| Alt (r1 r2 : regex)
| Cat (r1 r2 : regex)
| Group (i : nat) (r : regex).

Definition newline : ascii := ascii_of_nat 10.

(** Where [$] holds: nothing is left, or exactly one final line feed. *)
Definition at_eol (s : string) : bool :=
  match s with
  | EmptyString => true
  | String c EmptyString => Ascii.eqb c newline
  | _ => false
  end.

Fixpoint strip_prefix (l s : string) {struct l} : option string :=
  match l with
  | EmptyString => Some s
  | String a l' =>
      match s with
      | EmptyString => None
      | String b s' => if Ascii.eqb a b then strip_prefix l' s' else None
      end
  end.

(** Captured groups, most recent binding first. *)
Definition groups := list (nat * string).

Definition set_group (i : nat) (v : string) (g : groups) : groups :=
  (i, v) :: g.

Fixpoint group (g : groups) (i : nat) : string :=
  match g with
  | [] => ""
  | (j, v) :: g' => if (j =? i)%nat then v else group g' i
  end.

Definition cont := nat -> string -> groups -> option groups.

(** Greedy [cs+]: take one more character first, give one back on failure. *)
Fixpoint plus_loop (cs : charset) (pos : nat) (s : string) (g : groups)
    (k : cont) : option groups :=
  match s with
  | EmptyString => None
  | String c s' =>
      if in_class cs c then
        match plus_loop cs (S pos) s' g k with
        | Some m => Some m
        | None => k (S pos) s' g
        end
      else None
  end.

(** [rx r pos s g k]: match [r] at offset [pos], where [s] is what is left
    of the subject, then continue with [k]; alternatives are tried left to
    right. *)
Fixpoint rx (r : regex) (pos : nat) (s : string) (g : groups) (k : cont)
    : option groups :=
  match r with
  | Bol => if (pos =? 0)%nat then k pos s g else None
  | Eol => if at_eol s then k pos s g else None
  | Lit l =>
      match strip_prefix l s with
      | Some s' => k (pos + String.length l) s' g
      | None => None
      end
  | Cls cs =>
      match s with
      | String c s' => if in_class cs c then k (S pos) s' g else None
      | EmptyString => None
      end
  | Plus cs => plus_loop cs pos s g k
  | Alt r1 r2 =>
      match rx r1 pos s g k with
      | Some m => Some m
      | None => rx r2 pos s g k
      end
  | Cat r1 r2 => rx r1 pos s g (fun pos' s' g' => rx r2 pos' s' g' k)
  | Group i r1 =>
      rx r1 pos s g
         (fun pos' s' g' =>
            k pos' s' (set_group i (substring 0 (pos' - pos) s) g'))
  end.

(** [re.match(pattern, s)]: anchored at the start, free at the end. *)
Definition re_match (pattern : regex) (s : string) : option groups :=
  rx pattern 0 s [] (fun _ _ g => Some g).

(** Declarative reading of the same constructs: [matches r pos w rest g g']
    when, at offset [pos] and with [w ++ rest] left of the subject, [r] can
    consume exactly [w], turning the groups [g] into [g']. *)
Inductive matches : regex -> nat -> string -> string ->
                    groups -> groups -> Prop :=
| m_bol rest g : matches Bol 0 "" rest g g
| m_eol pos rest g : at_eol rest = true -> matches Eol pos "" rest g g
| m_lit l pos rest g : matches (Lit l) pos l rest g g
| m_cls cs pos c rest g :
    in_class cs c = true -> matches (Cls cs) pos (String c "") rest g g
| m_plus cs pos w rest g :
    w <> "" -> all_chars (in_class cs) w = true ->
    matches (Plus cs) pos w rest g g
| m_alt_l r1 r2 pos w rest g g' :
    matches r1 pos w rest g g' -> matches (Alt r1 r2) pos w rest g g'
| m_alt_r r1 r2 pos w rest g g' :
    matches r2 pos w rest g g' -> matches (Alt r1 r2) pos w rest g g'
| m_cat r1 r2 pos w1 w2 rest g g1 g2 :
    matches r1 pos w1 (w2 ++ rest) g g1 ->
    matches r2 (pos + String.length w1) w2 rest g1 g2 ->
    matches (Cat r1 r2) pos (w1 ++ w2) rest g g2
| m_group i r pos w rest g g' :
    matches r pos w rest g g' ->
    matches (Group i r) pos w rest g (set_group i w g').

(** Decimal value of a digit string, as [int] computes it on the digits a
    class [[0-9]] has matched. *)
Definition digit_val (c : ascii) : nat := nat_of_ascii c - 48.

Fixpoint int_acc (acc : nat) (s : string) : nat :=
  match s with
  | EmptyString => acc
  | String c s' => int_acc (10 * acc + digit_val c) s'
  end.

Definition int (s : string) : nat := int_acc 0 s.

End PyRe.

Import PyRe.

Module Validators.

Definition digit : charset := [("0", "9")]%char.
Definition hexdigit : charset := [("0", "9"); ("a", "f"); ("A", "F")]%char.
Definition trust_domain_char : charset :=
  [("a", "z"); ("A", "Z"); ("0", "9"); (".", "."); ("-", "-")]%char.

(** The first group, [([0-9]|1[0-9]|2[0-3])]. *)
Definition index_pattern : regex :=
  Group 1 (Alt (Cls digit)
          (Alt (Cat (Lit "1") (Cls digit))
               (Cat (Lit "2") (Cls [("0", "3")]%char)))).

(** [r'^tpm:pcr:([0-9]|1[0-9]|2[0-3]):([0-9a-fA-F]+)$'] *)
Definition pcr_selector_pattern : regex :=
  Cat Bol
 (Cat (Lit "tpm:pcr:")
 (Cat index_pattern
 (Cat (Lit ":")
 (Cat (Group 2 (Plus hexdigit))
      Eol)))).

Definition valid_hash_lengths : list nat := [32; 40; 48; 64; 96; 128].

(** [validate_pcr_selector_format] *)
Definition validate_pcr_selector_format (selector : string) : bool :=
  match re_match pcr_selector_pattern selector with
  | None => false
  | Some m =>
      let pcr_index := int (group m 1) in
      let hash_value := group m 2 in
      if (pcr_index <? 0)%nat || (23 <? pcr_index)%nat then false
      else
        let hash_len := String.length hash_value in
        if negb (existsb (Nat.eqb hash_len) valid_hash_lengths) then false
        else true
  end.

(** [r'^spiffe://[a-zA-Z0-9.-]+/spire/agent/tpm/[0-9a-fA-F]+$'] *)
Definition tpm_agent_pattern : regex :=
  Cat Bol
 (Cat (Lit "spiffe://")
 (Cat (Plus trust_domain_char)
 (Cat (Lit "/spire/agent/tpm/")
 (Cat (Plus hexdigit)
      Eol)))).

(** [validate_tpm_agent_spiffe_id_format] *)
Definition validate_tpm_agent_spiffe_id_format (spiffe_id : string) : bool :=
  match re_match tpm_agent_pattern spiffe_id with
  | Some _ => true
  | None => false
  end.

End Validators.

Import Validators.

(** ** mtls_demo.py *)

(** What [SSLSocket.getpeercert()] returns: a dictionary; a field is [None]
    when its key is absent.  [subjectAltName] holds the (type, value) pairs
    in certificate order. *)
Record cert : Type := {
  subject : option string;
  issuer : option string;
  subjectAltName : option (list (string * string))
}.

(** The responder's view of the network.  Every call of
    [bindsocket.accept()] consumes one scripted outcome: a peer that
    connected, with what each later call on its connection will do, or an
    error raised by [accept] itself.  When the script is exhausted [accept]
    blocks. *)
Record peer : Type := {
  fromaddr : string;
  handshake_ok : bool;          (* [context.wrap_socket] returns *)
  peer_cert : cert;             (* [conn.getpeercert()] *)
  own_identity_ok : bool;       (* reading the local svid file does not raise *)
  recv_data : option string;    (* [conn.recv(1024).decode()], [None]: raises *)
  send_ok : bool;
  close_ok : bool
}.

Inductive accept_outcome : Type :=
| Accepted (p : peer)
| AcceptFailed (e : string).

(** Observable actions of the responder; a connection is named by the
    ordinal of the [accept] call that returned it.  [Close c] is a closure
    the program performs by a call: [conn.close()], or the close that
    [wrap_socket] does itself when its handshake fails.  What the garbage
    collector closes later is not recorded. *)
Inductive event : Type :=
| Listen
| Accept (c : nat)
| Handshake (c : nat)
| Recv (c : nat)
| Send (c : nat) (payload : string)
| Close (c : nat)
| CloseListener
| Print (line : string).

(** How a run ends: the function returned, or it is blocked in [accept]. *)
Inductive run_end : Type := Returned | Blocked.

(** Straight-line code that logs events and may raise. *)
Module Exn.

Inductive result (A : Type) : Type :=
| Ok (a : A)
| Raise (e : string).
Arguments Ok {A} a.
Arguments Raise {A} e.

Definition M (A : Type) : Type := list event * result A.

Definition ret {A} (a : A) : M A := ([], Ok a).

Definition bind {A B} (m : M A) (f : A -> M B) : M B :=
  match m with
  | (t, Ok a) => let (t', r) := f a in ((t ++ t')%list, r)
  | (t, Raise e) => (t, Raise e)
  end.

Definition emit (e : event) : M unit := ([e], Ok tt).

Definition raise {A} (e : string) : M A := ([], Raise e).

Definition print (line : string) : M unit := emit (Print line).

(** [d[key]]: [KeyError] when the key is absent. *)
Definition getitem (key : string) (v : option string) : M string :=
  match v with
  | Some x => ret x
  | None => raise ("KeyError: " ++ key)
  end.

(** A call that either performs [e] or raises [err]. *)
Definition call (ok : bool) (e : event) (err : string) : M unit :=
  if ok then emit e else raise err.

Definition when (b : bool) (m : M unit) : M unit := if b then m else ret tt.

(** [try: m  except Exception as e: h e], keeping the events only. *)
Definition try_except (m : M unit) (h : string -> M unit) : list event :=
  match m with
  | (t, Ok _) => t
  | (t, Raise e) => (t ++ fst (h e))%list
  end.

End Exn.

Notation "x <- m ;; f" := (Exn.bind m (fun x => f))
  (at level 61, m at next level, right associativity).
Notation "m ;;; f" := (Exn.bind m (fun _ => f))
  (at level 61, right associativity).

Module MtlsDemo.

Import Exn.

(** The loop of [extract_spiffe_id] over [cert['subjectAltName']]. *)
Fixpoint first_spiffe_uri (san : list (string * string)) : option string :=
  match san with
  | [] => None
  | (alt_name_type, alt_name_value) :: rest =>
      if String.eqb alt_name_type "URI" && startswith alt_name_value "spiffe://"
      then Some alt_name_value
      else first_spiffe_uri rest
  end.

(** [extract_spiffe_id] *)
Definition extract_spiffe_id (c : cert) : option string :=
  match subjectAltName c with
  | Some san => first_spiffe_uri san
  | None => None
  end.

Definition print_spiffe_id (label : string) (id : option string) : M unit :=
  match id with
  | Some v => print (label ++ v)
  | None => ret tt
  end.

(** [context.wrap_socket(newsocket, server_side=True)] on a connected
    socket: the handshake is done inside, and when it fails [ssl] closes
    the socket before it lets the error through. *)
Definition wrap_socket (ok : bool) (c : nat) : M unit :=
  if ok then emit (Handshake c)
  else emit (Close c) ;;; raise "ssl.SSLError".

(** The body of the [while True:] loop of [run_server] (phase 4), inside
    its [try]: one [accept], then the exchange on the connection it
    returned.  Log lines are given without their emoji and leading blank
    line; the subject and issuer tuples are printed as text. *)
Definition serve_body (c : nat) (o : accept_outcome) : M unit :=
  match o with
  | AcceptFailed e => raise e
  | Accepted p =>
      emit (Accept c) ;;;
      wrap_socket (handshake_ok p) c ;;;
      print ("[Server] Accepted secure connection from " ++ fromaddr p) ;;;
      let client_spiffe_id := extract_spiffe_id (peer_cert p) in
      print "[Server] VERIFIED CLIENT IDENTITY:" ;;;
      subj <- getitem "subject" (subject (peer_cert p)) ;;
      print ("         Subject: " ++ subj) ;;;
      iss <- getitem "issuer" (issuer (peer_cert p)) ;;
      print ("         Issuer:  " ++ iss) ;;;
      print_spiffe_id "         SPIFFE ID: " client_spiffe_id ;;;
      when (negb (own_identity_ok p)) (raise "svid.0.pem") ;;;
      print "[mTLS] Mutual TLS handshake successful" ;;;
      print_spiffe_id "[mTLS] Client identity: " client_spiffe_id ;;;
      data <- match recv_data p with
              | Some d => emit (Recv c) ;;; ret d
              | None => raise "recv"
              end ;;
      print ("[Server] Received message: " ++ data) ;;;
      call (send_ok p) (Send c "Secure Hello from SPIRE Server!") "send" ;;;
      call (close_ok p) (Close c) "close"
  end.

(** One turn of the loop: the body under its [except Exception]. *)
Definition serve (c : nat) (o : accept_outcome) : list event :=
  try_except (serve_body c o)
             (fun e => print ("[Server] Connection error: " ++ e)).

(** [while True:] over the scripted outcomes; [c] counts the [accept]
    calls made so far. *)
Fixpoint run_server_loop (c : nat) (incoming : list accept_outcome)
    : list event :=
  match incoming with
  | [] => []
  | o :: rest => (serve c o ++ run_server_loop (S c) rest)%list
  end.

(** [run_server] (phase 4).  [setup_ok] says whether creating the context,
    loading the credentials, binding and listening all succeed. *)
Definition run_server (setup_ok : bool) (incoming : list accept_outcome)
    : list event * run_end :=
  if setup_ok then
    (Listen
     :: Print "[Server] Secure mTLS Server listening on 0.0.0.0:9999..."
     :: run_server_loop 0 incoming, Blocked)
  else ([Print "[Server] Error: setup"], Returned).

End MtlsDemo.

Module Phase1.

Import Exn.

(** [run_server] of [phase_1/mtls_demo.py]: one [accept], one exchange,
    then both sockets are closed and the function returns. *)
Definition serve_once (o : accept_outcome) : M unit :=
  match o with
  | AcceptFailed e => raise e
  | Accepted p =>
      emit (Accept 0) ;;;
      MtlsDemo.wrap_socket (handshake_ok p) 0 ;;;
      print ("[Server] Accepted secure connection from " ++ fromaddr p) ;;;
      print "[Server] VERIFIED CLIENT IDENTITY:" ;;;
      subj <- getitem "subject" (subject (peer_cert p)) ;;
      print ("         Subject: " ++ subj) ;;;
      iss <- getitem "issuer" (issuer (peer_cert p)) ;;
      print ("         Issuer:  " ++ iss) ;;;
      data <- match recv_data p with
              | Some d => emit (Recv 0) ;;; ret d
              | None => raise "recv"
              end ;;
      print ("[Server] Received message: " ++ data) ;;;
      call (send_ok p) (Send 0 "Secure Hello from SPIRE Server!") "send" ;;;
      call (close_ok p) (Close 0) "close" ;;;
      emit CloseListener
  end.

Definition run_server (setup_ok : bool) (incoming : list accept_outcome)
    : list event * run_end :=
  if setup_ok then
    match incoming with
    | [] =>
        ([Listen;
          Print "[Server] Secure mTLS Server listening on localhost:9999..."],
         Blocked)
    | o :: _ =>
        (Listen
         :: Print "[Server] Secure mTLS Server listening on localhost:9999..."
         :: try_except (serve_once o)
                       (fun e => print ("[Server] Error: " ++ e)),
         Returned)
    end
  else ([Print "[Server] Error: setup"], Returned).

End Phase1.

(** Reading a trace. *)

(** The connections a trace accepts, in order. *)
Fixpoint accepts (t : list event) : list nat :=
  match t with
  | [] => []
  | Accept c :: t' => c :: accepts t'
  | _ :: t' => accepts t'
  end.

(** The connection an event acts on. *)
Definition conn_of (e : event) : option nat :=
  match e with
  | Accept c | Handshake c | Recv c | Send c _ | Close c => Some c
  | Listen | CloseListener | Print _ => None
  end.

(** The socket calls of a trace, the log lines left out. *)
Fixpoint calls (t : list event) : list event :=
  match t with
  | [] => []
  | Print _ :: t' => calls t'
  | e :: t' => e :: calls t'
  end.

(** The socket calls of one complete exchange on connection [c]. *)
Definition exchange (c : nat) : list event :=
  [Accept c; Handshake c; Recv c;
   Send c "Secure Hello from SPIRE Server!"; Close c].

Definition present (v : option string) : bool :=
  match v with Some _ => true | None => false end.

(** How far into [exchange] a cycle gets with the given outcome; [own] says
    whether the variant also logs its own identity (phase 4 does, phase 1
    does not). *)
Definition progress (own : bool) (o : accept_outcome) : nat :=
  match o with
  | AcceptFailed _ => 0
  | Accepted p =>
      if negb (handshake_ok p) then 1
      else if negb (present (subject (peer_cert p)))
              || negb (present (issuer (peer_cert p)))
              || (own && negb (own_identity_ok p))
              || negb (present (recv_data p)) then 2
      else if negb (send_ok p) then 3
      else if negb (close_ok p) then 4
      else 5
  end.

(** Nothing the responder asks of this peer fails. *)
Definition cooperative (p : peer) : bool :=
  handshake_ok p
  && present (subject (peer_cert p)) && present (issuer (peer_cert p))
  && own_identity_ok p
  && present (recv_data p)
  && send_ok p && close_ok p.

(** The socket calls of one turn with the given outcome: nothing when
    [accept] fails, the accepted socket closed at once when the handshake
    fails, and otherwise the part of [exchange] that [progress] reaches. *)
Definition turn_calls (own : bool) (c : nat) (o : accept_outcome)
    : list event :=
  match o with
  | AcceptFailed _ => []
  | Accepted p =>
      if handshake_ok p then firstn (progress own o) (exchange c)
      else [Accept c; Close c]
  end.


(** ** The formats and tokens the specification names *)

Module Spec.

(** The texts of the PCR indices 0..23, the language of
    [(0|1?[0-9]|2[0-3])]. *)
Definition pcr_indices : list string :=
  ["0"; "1"; "2"; "3"; "4"; "5"; "6"; "7"; "8"; "9";
   "10"; "11"; "12"; "13"; "14"; "15"; "16"; "17"; "18"; "19";
   "20"; "21"; "22"; "23"].

(** The selector format [tpm:pcr:<index>:<hex-digest>]: the whole of [s]
    is the prefix, an index, a colon and a hexadecimal digest of an
    accepted length. *)
Definition selector_format (s : string) : Prop :=
  exists idx digest,
    s = "tpm:pcr:" ++ idx ++ ":" ++ digest /\
    In idx pcr_indices /\
    all_chars (in_class hexdigit) digest = true /\
    In (String.length digest) valid_hash_lengths.

(** The agent identity format: scheme, [://], a non-empty trust domain of
    letters, digits, dots and hyphens, [/spire/agent/tpm/], one or more
    hexadecimal characters, and nothing else. *)
Definition agent_id_format (u : string) : Prop :=
  exists td h,
    u = "spiffe://" ++ td ++ "/spire/agent/tpm/" ++ h /\
    td <> "" /\ all_chars (in_class trust_domain_char) td = true /\
    h <> "" /\ all_chars (in_class hexdigit) h = true.

(** A line feed, alone. *)
Definition nl : string := String newline "".

(** The words of a message, cut at single spaces. *)
Definition words (msg : string) : list string :=
  split " " (String.length msg) msg.

Definition has_word (w msg : string) : bool :=
  existsb (String.eqb w) (words msg).

(** A certificate whose alternative-name extension holds [san]. *)
Definition with_san (subj iss : option string) (san : list (string * string))
    : cert :=
  {| subject := subj; issuer := iss; subjectAltName := Some san |}.

(** A candidate entry of the identity extractor. *)
Definition spiffe_uri_entry (e : string * string) : bool :=
  String.eqb (fst e) "URI" && startswith (snd e) "spiffe://".

End Spec.

Import Spec.

(** ** The rest of the cited files *)

From Stdlib Require Import ZArith DecimalString.

(** *** tests/test_tpm_setup.py: log check and backup simulation *)

Module TpmSetupLogs.

Definition init_keywords : list string :=
  ["init"; "start"; "open"; "load"; "attestor"; "plugin"; "device";
   "attestation"; "key generated"; "complete"; "success"].

(** The loop [for keyword in init_keywords: if keyword in log: return True],
    falling through to [return False]. *)
Fixpoint any_keyword (keywords : list string) (normalized_log : string) : bool :=
  match keywords with
  | [] => false
  | keyword :: rest =>
      if str_in keyword normalized_log then true
      else any_keyword rest normalized_log
  end.

(** [simulate_log_check_for_tpm_initialization] *)
Definition simulate_log_check_for_tpm_initialization (log_content : string)
    : bool :=
  let normalized_log := lower log_content in
  if negb (str_in "tpm" normalized_log) then false
  else any_keyword init_keywords normalized_log.

(** [simulate_config_modification_with_backup]: the pair
    [(original_preserved, backup_content)]. *)
Definition simulate_config_modification_with_backup
    (original_content : string) (backup_created : bool) : bool * string :=
  if backup_created then (true, original_content) else (false, "").

End TpmSetupLogs.

(** *** mtls_demo.py: fetching the SVID *)

(** What [subprocess.run(..., capture_output=True, text=True, timeout=t)]
    gives: a completed process, a timeout, or another exception. *)
Record completed_process : Type := {
  returncode : Z;
  stdout : string;
  stderr : string
}.

Inductive run_outcome : Type :=
| Completed (result : completed_process)
| TimeoutExpired
| RunError (e : string).

(** What a fetch function does to the outside: a line printed, a command
    run. *)
Inductive action : Type :=
| Say (line : string)
| Run (argv : list string).

(** The answers the environment gives to [fetch_svids], in the order the
    function asks. *)
Record fetch_env : Type := {
  binary_exists : bool;          (* [os.path.exists] of the agent binary *)
  socket_exists : bool;          (* [os.path.exists] of the agent socket *)
  getcwd : Exn.result string;    (* [os.getcwd()] *)
  fetch_run : run_outcome;       (* the run that writes the SVID files *)
  attest_run : run_outcome       (* the run of [check_tpm_attestation] *)
}.

Definition show_int (z : Z) : string := NilZero.string_of_int (Z.to_int z).

Fixpoint repeat_string (s : string) (n : nat) : string :=
  match n with
  | O => ""
  | S n' => s ++ repeat_string s n'
  end.

Module Phase4Fetch.

(** [check_tpm_attestation]: the command it runs, the warning it prints,
    and its verdict. *)
Definition check_tpm_attestation (o : run_outcome) : list action * bool :=
  let cmd :=
    Run ["/opt/spire/bin/spire-agent"; "api"; "fetch"; "x509";
         "-socketPath"; "/tmp/spire-agent/public/api.sock"] in
  match o with
  | Completed result =>
      if str_in "tpm" (lower (stdout result))
         || str_in "tpm" (lower (stderr result))
      then ([cmd], true)
      else ([cmd], false)
  | TimeoutExpired =>
      ([cmd;
        Say "[TPM] Warning: Could not verify TPM attestation status: timed out"],
       false)
  | RunError e =>
      ([cmd;
        Say ("[TPM] Warning: Could not verify TPM attestation status: " ++ e)],
       false)
  end.

Definition rule : string := repeat_string "=" 60.

(** The block [fetch_svids] prints when it takes a failed fetch for a PCR
    mismatch. *)
Definition pcr_mismatch_report (stderr_text : string) : list action :=
  map Say
    [nl ++ rule;
     "   TPM PCR MISMATCH DETECTED";
     rule;
     nl ++ "The SPIRE Agent denied the SVID request due to a PCR mismatch.";
     "This indicates that the system's TPM measurements have changed";
     "since the workload was registered.";
     nl ++ "Error details:";
     stderr_text;
     nl ++ rule;
     "TROUBLESHOOTING STEPS:";
     rule;
     nl ++ "1. Check current TPM PCR values:";
     "   tpm2_pcrread sha256";
     nl ++ "2. View workload registration:";
     "   sudo /opt/spire/bin/spire-server entry show";
     nl ++ "3. Validate PCR match:";
     "   sudo ./validate_pcr_match.sh --spiffe-id <your-spiffe-id>";
     nl ++ "4. If system changes are legitimate, update registration:";
     "   a. Read current PCR value for the registered index";
     "   b. Delete old registration:";
     "      sudo /opt/spire/bin/spire-server entry delete -spiffeID <id>";
     "   c. Register with new PCR value:";
     "      sudo ./register_workload_tpm.sh --spiffe-id <id> \";
     "           --pcr-index <index> --pcr-hash <new_hash>";
     nl ++ "5. Common causes of PCR changes:";
     "   - Firmware or BIOS updates";
     "   - Bootloader changes";
     "   - Kernel or initramfs updates";
     "   - Secure Boot configuration changes";
     "   - TPM has been cleared or reset";
     nl ++ rule].

(** The test [fetch_svids] applies to the lowercased standard error. *)
Definition looks_like_pcr_mismatch (stderr_text : string) : bool :=
  let stderr_lower := lower stderr_text in
  str_in "pcr" stderr_lower || str_in "mismatch" stderr_lower
  || str_in "permission denied" stderr_lower.

(** [fetch_svids] (phase 4): what it does and what it returns. *)
Definition fetch_svids (env : fetch_env) : list action * bool :=
  let hello := Say "[SPIRE] Fetching SVIDs from SPIRE Agent..." in
  if negb (binary_exists env) then
    ([hello;
      Say "Error: spire-agent binary not found at /opt/spire/bin/spire-agent"],
     false)
  else if negb (socket_exists env) then
    ([hello;
      Say "Error: SPIRE Agent socket not found at /tmp/spire-agent/public/api.sock"],
     false)
  else
    match getcwd env with
    | Exn.Raise e => ([hello; Say ("Error during SVID fetch: " ++ e)], false)
    | Exn.Ok current_dir =>
        let cmd :=
          Run ["/opt/spire/bin/spire-agent"; "api"; "fetch"; "x509";
               "-write"; current_dir] in
        match fetch_run env with
        | TimeoutExpired =>
            ([hello; cmd; Say "Error: Timeout while fetching SVID"], false)
        | RunError e =>
            ([hello; cmd; Say ("Error during SVID fetch: " ++ e)], false)
        | Completed result =>
            if negb (returncode result =? 0)%Z then
              ((hello :: cmd
                :: Say (nl ++ "❌ Error fetching SVID from SPIRE Agent")
                :: Say ("Return code: " ++ show_int (returncode result))
                :: (if looks_like_pcr_mismatch (stderr result)
                    then pcr_mismatch_report (stderr result)
                    else [Say (nl ++ "Error output:" ++ nl ++ stderr result)]))%list,
               false)
            else
              let (probe, tpm_active) := check_tpm_attestation (attest_run env) in
              ((hello :: cmd :: Say (stdout result)
                :: probe
                ++ (if tpm_active
                    then [Say (nl ++ "[TPM] ✅ TPM Attestation is ACTIVE");
                          Say "[TPM] SVIDs are backed by hardware security"]
                    else [Say (nl ++ "[TPM] ℹ️  TPM Attestation status: Not detected");
                          Say "[TPM] Using standard attestation method"]))%list,
               true)
        end
    end.

End Phase4Fetch.

Module Phase3Fetch.

(** The answers the environment gives to the phase-3 [fetch_svids]; its
    command writes to [/app], so its run is not the run of phase 4. *)
Record env : Type := {
  agent_binary_exists : bool;    (* [os.path.exists] of the agent binary *)
  agent_socket_exists : bool;    (* [os.path.exists] of the agent socket *)
  run : run_outcome              (* the run of the fetch command *)
}.

(** [fetch_svids] of [phase_3_k8s/mtls_demo.py]; it writes to [/app] and
    never asks for the working directory. *)
Definition fetch_svids (e : env) : list action * bool :=
  let hello := Say "[SPIRE] Fetching SVIDs from SPIRE Agent..." in
  if negb (agent_binary_exists e) then
    ([hello;
      Say "Error: spire-agent binary not found at /opt/spire/bin/spire-agent"],
     false)
  else if negb (agent_socket_exists e) then
    ([hello;
      Say "Error: SPIRE Agent socket not found at /tmp/spire-agent/public/api.sock"],
     false)
  else
    let cmd :=
      Run ["/opt/spire/bin/spire-agent"; "api"; "fetch"; "x509";
           "-write"; "/app"] in
    match run e with
    | TimeoutExpired =>
        ([hello; cmd; Say "Error: Timeout while fetching SVID"], false)
    | RunError err =>
        ([hello; cmd; Say ("Error during SVID fetch: " ++ err)], false)
    | Completed result =>
        if negb (returncode result =? 0)%Z then
          ([hello; cmd; Say ("Error fetching SVID: " ++ stderr result)], false)
        else ([hello; cmd; Say (stdout result)], true)
    end.

End Phase3Fetch.

Module Phase2Fetch.

(** What [subprocess.check_call(cmd)] does. *)
Inductive check_call_outcome : Type :=
| CallOk
| CalledProcessError (e : string)
| FileNotFoundError
| OtherError (e : string).

Record env : Type := {
  call : check_call_outcome;
  file_exists : string -> bool;             (* [os.path.exists] *)
  listdir_app : Exn.result (list string)    (* [os.listdir('/app')] *)
}.

Definition required_files : list string :=
  ["svid.0.pem"; "svid.0.key"; "bundle.0.pem"].

(** [repr] of a list of plain file names. *)
Definition repr_list (l : list string) : string :=
  "[" ++ String.concat ", " (map (fun s => "'" ++ s ++ "'") l) ++ "]".

Definition cmd : action :=
  Run ["/opt/spire/bin/spire-agent"; "api"; "fetch"; "x509"; "-write"; "/app";
       "-socketPath"; "/tmp/spire-agent/public/api.sock"].

(** [fetch_svids] of [phase_2/mtls_demo.py]: what it does, and the value it
    returns or the exception it lets through. *)
Definition fetch_svids (e : env) : list action * Exn.result bool :=
  let hello :=
    Say "[SPIRE] Fetching SVIDs using /opt/spire/bin/spire-agent..." in
  match call e with
  | CalledProcessError err =>
      ([hello; cmd; Say ("❌ Failed to run spire-agent: " ++ err)], Exn.Ok false)
  | FileNotFoundError =>
      ([hello; cmd;
        Say "❌ Could not find binary at /opt/spire/bin/spire-agent"],
       Exn.Ok false)
  | OtherError err => ([hello; cmd], Exn.Raise err)
  | CallOk =>
      let missing :=
        filter (fun f => negb (file_exists e f)) required_files in
      match missing with
      | [] =>
          ([hello; cmd; Say "✅ Successfully ran fetch command.";
            Say "✅ SVID files found on disk."],
           Exn.Ok true)
      | _ :: _ =>
          let complaint :=
            Say ("❌ Error: The following files are missing after fetch: "
                 ++ repr_list missing) in
          match listdir_app e with
          | Exn.Ok names =>
              ([hello; cmd; Say "✅ Successfully ran fetch command."; complaint;
                Say ("📂 Current Directory (/app) contents: " ++ repr_list names)],
               Exn.Ok false)
          | Exn.Raise err =>
              ([hello; cmd; Say "✅ Successfully ran fetch command."; complaint],
               Exn.Raise err)
          end
      end
  end.

End Phase2Fetch.

(** *** mtls_demo.py: a side's own identity *)

(** The entries of a parsed subject-alternative-name extension, as the
    [cryptography] package types them. *)
Inductive general_name : Type :=
| UniformResourceIdentifier (value : string)
| DNSName (value : string)
| RFC822Name (value : string)
| IPAddress (value : string)
| OtherGeneralName (value : string).

Module OwnIdentity.

(** The loop of [run_server] and [run_client] over [san_ext.value], which
    stops at the first URI name that starts with the scheme; the loop of
    [extract_spiffe_id_from_cert] in [tests/test_mtls_demo.py] is the
    same. *)
Fixpoint first_spiffe_name (names : list general_name) : option string :=
  match names with
  | [] => None
  | UniformResourceIdentifier value :: rest =>
      if startswith value "spiffe://" then Some value
      else first_spiffe_name rest
  | _ :: rest => first_spiffe_name rest
  end.

(** [san_ext] is [None] when the certificate has no such extension:
    [get_extension_for_oid] raises and the bare [except] swallows it. *)
Definition own_spiffe_id (san_ext : option (list general_name))
    : option string :=
  match san_ext with
  | Some names => first_spiffe_name names
  | None => None
  end.

(** How [ssl] presents the same entries in [getpeercert()]. *)
Definition peercert_entry (n : general_name) : string * string :=
  match n with
  | UniformResourceIdentifier v => ("URI", v)
  | DNSName v => ("DNS", v)
  | RFC822Name v => ("email", v)
  | IPAddress v => ("IP Address", v)
  | OtherGeneralName v => ("othername", v)
  end.

End OwnIdentity.

(** *** mtls_demo.py: the initiator *)


Module Client.

Import Exn.





End Client.

(** *** Reading traces *)

(** The commands a fetch has run, in order. *)
Fixpoint commands (acts : list action) : list (list string) :=
  match acts with
  | [] => []
  | Run argv :: rest => argv :: commands rest
  | Say _ :: rest => commands rest
  end.

Definition is_accepted (o : accept_outcome) : bool :=
  match o with Accepted _ => true | AcceptFailed _ => false end.

(** A line of the responder's per-connection error report. *)
Definition is_connection_error (e : event) : bool :=
  match e with
  | Print line => startswith line "[Server] Connection error: "
  | _ => false
  end.

Definition fetch_command (dir : string) : list string :=
  ["/opt/spire/bin/spire-agent"; "api"; "fetch"; "x509"; "-write"; dir].

Definition probe_command : list string :=
  ["/opt/spire/bin/spire-agent"; "api"; "fetch"; "x509";
   "-socketPath"; "/tmp/spire-agent/public/api.sock"].

(** The environment [env] with another outcome for the attestation probe. *)
Definition with_probe (env : fetch_env) (o : run_outcome) : fetch_env :=
  {| binary_exists := binary_exists env;
     socket_exists := socket_exists env;
     getcwd := getcwd env;
     fetch_run := fetch_run env;
     attest_run := o |}.

(** Whether the working directory could be read. *)
Definition cwd_known (env : fetch_env) : bool :=
  match getcwd env with Exn.Ok _ => true | Exn.Raise _ => false end.

(** Whether the fetch command ran to completion with return code 0. *)
Definition fetch_exit_zero (env : fetch_env) : bool :=
  match fetch_run env with
  | Completed result => (returncode result =? 0)%Z
  | _ => false
  end.

(** *** Reading strings *)

(** How often the character [c] occurs in [s]. *)
Fixpoint count_char (c : ascii) (s : string) : nat :=
  match s with
  | EmptyString => 0
  | String d s' => (if Ascii.eqb d c then 1 else 0) + count_char c s'
  end.

(** * Properties *)

(** ** Strings *)

Section StringFacts.

Lemma append_nil_r (s : string) : s ++ "" = s.
Proof. induction s as [|c s IH]; simpl; [reflexivity | now rewrite IH]. Qed.

Lemma append_assoc (a b c : string) : (a ++ b) ++ c = a ++ (b ++ c).
Proof. induction a as [|x a IH]; simpl; [reflexivity | now rewrite IH]. Qed.

Lemma length_append (a b : string) :
  String.length (a ++ b) = String.length a + String.length b.
Proof. induction a as [|x a IH]; simpl; [reflexivity | now rewrite IH]. Qed.

Lemma lower_append (a b : string) : lower (a ++ b) = lower a ++ lower b.
Proof. induction a as [|x a IH]; simpl; [reflexivity | now rewrite IH]. Qed.

Lemma startswith_append (p s : string) : startswith (p ++ s) p = true.
Proof.
  induction p as [|c p IH]; simpl; [reflexivity|].
  now rewrite Ascii.eqb_refl, IH.
Qed.

Lemma startswith_weaken (s p t : string) :
  startswith s p = true -> startswith (s ++ t) p = true.
Proof.
  revert s; induction p as [|c p IH]; intros s H; [reflexivity|].
  destruct s as [|d s]; simpl in *; [discriminate|].
  apply andb_true_iff in H as [H1 H2].
  now rewrite H1, (IH _ H2).
Qed.

Lemma startswith_split (s p : string) :
  startswith s p = true -> exists t, s = p ++ t.
Proof.
  revert s; induction p as [|c p IH]; intros s H.
  - now exists s.
  - destruct s as [|d s]; simpl in H; [discriminate|].
    apply andb_true_iff in H as [H1 H2].
    apply Ascii.eqb_eq in H1; subst d.
    destruct (IH _ H2) as [t ->]. now exists t.
Qed.

Lemma str_in_here (n s : string) : str_in n (n ++ s) = true.
Proof.
  destruct n as [|c n]; destruct s as [|d s]; simpl;
    rewrite ?Ascii.eqb_refl, ?startswith_append; reflexivity.
Qed.

Lemma str_in_skip (n a b : string) :
  str_in n b = true -> str_in n (a ++ b) = true.
Proof.
  intros H; induction a as [|c a IH]; simpl; [exact H|].
  rewrite IH. apply orb_true_r.
Qed.

Lemma str_in_extend (n a b : string) :
  str_in n a = true -> str_in n (a ++ b) = true.
Proof.
  induction a as [|c a IH]; intros H.
  - destruct n; simpl in H; [|discriminate].
    destruct b; reflexivity.
  - cbn [str_in] in H. apply orb_true_iff in H as [H|H].
    + change (String c a ++ b) with (String c (a ++ b)).
      cbn [str_in]. apply orb_true_iff; left.
      exact (startswith_weaken (String c a) n b H).
    + change (String c a ++ b) with (String c (a ++ b)).
      cbn [str_in]. rewrite (IH H). apply orb_true_r.
Qed.

Lemma str_in_refl (n : string) : str_in n n = true.
Proof. rewrite <- (append_nil_r n) at 2. apply str_in_here. Qed.

Lemma str_in_middle (n a b : string) : str_in n (a ++ n ++ b) = true.
Proof. apply str_in_skip, str_in_here. Qed.

Lemma free_of_append (c : ascii) (a b : string) :
  free_of c (a ++ b) = free_of c a && free_of c b.
Proof.
  induction a as [|x a IH]; simpl; [reflexivity|].
  now rewrite IH, andb_assoc.
Qed.

Lemma all_chars_append (p : ascii -> bool) (a b : string) :
  all_chars p (a ++ b) = all_chars p a && all_chars p b.
Proof.
  induction a as [|x a IH]; simpl; [reflexivity|].
  now rewrite IH, andb_assoc.
Qed.

Lemma all_chars_free_of (p : ascii -> bool) (c : ascii) (s : string) :
  p c = false -> all_chars p s = true -> free_of c s = true.
Proof.
  intros Hc; induction s as [|x s IH]; simpl; [reflexivity|].
  intros H; apply andb_true_iff in H as [Hx Hs].
  rewrite (IH Hs), andb_true_r.
  destruct (Ascii.eqb_spec x c) as [->|]; [congruence | reflexivity].
Qed.

Lemma cut_free (sep : ascii) (s : string) :
  free_of sep s = true -> cut sep s = None.
Proof.
  induction s as [|x s IH]; simpl; [reflexivity|].
  intros H; apply andb_true_iff in H as [Hx Hs].
  apply negb_true_iff in Hx. now rewrite Hx, (IH Hs).
Qed.

Lemma cut_at (sep : ascii) (a b : string) :
  free_of sep a = true -> cut sep (a ++ String sep b) = Some (a, b).
Proof.
  induction a as [|x a IH]; simpl.
  - now rewrite Ascii.eqb_refl.
  - intros H; apply andb_true_iff in H as [Hx Hs].
    apply negb_true_iff in Hx. now rewrite Hx, (IH Hs).
Qed.

Lemma lower_char_slash (c : ascii) :
  Ascii.eqb (lower_char c) "/" = Ascii.eqb c "/".
Proof.
  destruct c as [[] [] [] [] [] [] [] []]; reflexivity.
Qed.

Lemma free_of_slash_lower (s : string) :
  free_of "/" (lower s) = free_of "/" s.
Proof.
  induction s as [|x s IH]; simpl; [reflexivity|].
  now rewrite lower_char_slash, IH.
Qed.

End StringFacts.

(** ** Credential validator *)

(** C9. For all booleans a, b, c the credential validator returns exactly
    the conjunction a && b && c, so any single false input yields false. *)
Theorem ak_ek_validation_is_conjunction :
  forall a b c : bool,
    simulate_ak_ek_validation a b c = a && b && c /\
    simulate_ak_ek_validation false b c = false /\
    simulate_ak_ek_validation a false c = false /\
    simulate_ak_ek_validation a b false = false.
Proof.
  intros [] [] []; repeat split; reflexivity.
Qed.

(** ** Status aggregator *)

Section StatusReport.

Let report := simulate_verification_status_report.

(** C1. For every combination of the three inputs the explanation is
    non-empty and exactly one of the two status tokens ACTIVE / INACTIVE
    is a word of it, never both: ACTIVE when identityFormatOk holds,
    INACTIVE otherwise. *)
Theorem status_report_one_status_word :
  forall a b c : bool,
    fst (report a b c) <> "" /\
    xorb (has_word "ACTIVE" (fst (report a b c)))
         (has_word "INACTIVE" (fst (report a b c))) = true /\
    has_word "ACTIVE" (fst (report a b c)) = a /\
    has_word "INACTIVE" (fst (report a b c)) = negb a.
Proof.
  intros [] [] []; (split; [discriminate|]); repeat split; reflexivity.
Qed.

(** Read as substrings instead of words, INACTIVE occurs exactly when
    identityFormatOk is false, and ACTIVE occurs in every explanation,
    inside INACTIVE when the verdict is inactive. *)
Lemma status_report_substrings :
  forall a b c : bool,
    str_in "INACTIVE" (fst (report a b c)) = negb a /\
    str_in "ACTIVE" (fst (report a b c)) = true.
Proof.
  intros [] [] []; split; reflexivity.
Qed.

(** C6. When identityFormatOk is true the status is Active whatever the
    other two flags are, ACTIVE occurs in the explanation and INACTIVE
    does not. *)
Theorem status_report_identity_sufficient :
  forall b c : bool,
    snd (report true b c) = true /\
    str_in "ACTIVE" (fst (report true b c)) = true /\
    str_in "INACTIVE" (fst (report true b c)) = false.
Proof.
  intros [] []; repeat split; reflexivity.
Qed.

End StatusReport.

(** ** Measurement matcher *)

Section Matcher.

Lemma mismatch_denied (d1 d2 : string) :
  fst (simulate_pcr_mismatch_check d1 d2)
  = negb (String.eqb (lower d1) (lower d2)).
Proof.
  unfold simulate_pcr_mismatch_check.
  now destruct (String.eqb (lower d1) (lower d2)).
Qed.

Lemma mismatch_message (d1 d2 : string) :
  lower d1 <> lower d2 ->
  snd (simulate_pcr_mismatch_check d1 d2)
  = "PCR mismatch detected: Expected: " ++ lower d1
    ++ ", Actual: " ++ lower d2.
Proof.
  intros H. unfold simulate_pcr_mismatch_check.
  apply String.eqb_neq in H. rewrite H. reflexivity.
Qed.

Lemma lower_idempotent (s : string) : lower (lower s) = lower s.
Proof.
  induction s as [|c s IH]; simpl; [reflexivity|]. rewrite IH. f_equal.
  destruct c as [[] [] [] [] [] [] [] []]; reflexivity.
Qed.

(** C5. Digests that differ after case-normalization are denied, and the
    diagnostic contains the normalized expected digest, the normalized
    observed digest and, whatever the case, the word mismatch. *)
Theorem pcr_mismatch_denies_with_diagnostic :
  forall d1 d2 : string,
    lower d1 <> lower d2 ->
    fst (simulate_pcr_mismatch_check d1 d2) = true /\
    str_in (lower d1) (snd (simulate_pcr_mismatch_check d1 d2)) = true /\
    str_in (lower d2) (snd (simulate_pcr_mismatch_check d1 d2)) = true /\
    str_in "mismatch" (lower (snd (simulate_pcr_mismatch_check d1 d2))) = true.
Proof.
  intros d1 d2 H.
  rewrite mismatch_denied, (mismatch_message _ _ H).
  apply String.eqb_neq in H. rewrite H. split; [reflexivity|].
  split; [apply str_in_middle|].
  split.
  - do 3 apply str_in_skip. apply str_in_refl.
  - rewrite lower_append.
    change (lower "PCR mismatch detected: Expected: ")
      with ("pcr " ++ "mismatch" ++ " detected: expected: ").
    rewrite !append_assoc. apply str_in_middle.
Qed.

Lemma pcr_mismatch_denies_with_diagnostic_witness :
  fst (simulate_pcr_mismatch_check "A3F5" "a3f6") = true /\
  str_in "a3f5" (snd (simulate_pcr_mismatch_check "A3F5" "a3f6")) = true /\
  str_in "a3f6" (snd (simulate_pcr_mismatch_check "A3F5" "a3f6")) = true /\
  str_in "mismatch"
         (lower (snd (simulate_pcr_mismatch_check "A3F5" "a3f6"))) = true.
Proof.
  apply (pcr_mismatch_denies_with_diagnostic "A3F5" "a3f6").
  vm_compute. discriminate.
Defined.

(** C8. Digests that are equal after case-normalization are not denied,
    and the match check issues; this covers a digest compared with itself
    and the empty digest compared with the empty digest. *)
Theorem pcr_equal_digests_not_denied :
  forall d1 d2 : string,
    lower d1 = lower d2 ->
    fst (simulate_pcr_mismatch_check d1 d2) = false /\
    snd (simulate_pcr_mismatch_check d1 d2) = "" /\
    simulate_pcr_match_check d1 d2 = true.
Proof.
  intros d1 d2 H.
  unfold simulate_pcr_mismatch_check, simulate_pcr_match_check.
  rewrite H, String.eqb_refl. repeat split.
Qed.

Lemma pcr_equal_digests_not_denied_witness :
  fst (simulate_pcr_mismatch_check "A3F5d8" "a3f5D8") = false /\
  snd (simulate_pcr_mismatch_check "A3F5d8" "a3f5D8") = "" /\
  simulate_pcr_match_check "A3F5d8" "a3f5D8" = true.
Proof.
  apply (pcr_equal_digests_not_denied "A3F5d8" "a3f5D8").
  vm_compute. reflexivity.
Defined.

(** The matcher is reflexive, on the empty digest too. *)
Lemma pcr_match_reflexive (d : string) :
  fst (simulate_pcr_mismatch_check d d) = false /\
  simulate_pcr_match_check d d = true.
Proof.
  rewrite mismatch_denied. unfold simulate_pcr_match_check.
  now rewrite String.eqb_refl.
Qed.

Example pcr_match_empty :
  simulate_pcr_mismatch_check "" "" = (false, "") /\
  simulate_pcr_match_check "" "" = true.
Proof. split; reflexivity. Qed.

End Matcher.

(** ** Parent-ID check *)

Section ParentId.

Lemma split_with_path (a p : string) :
  free_of "/" a = true ->
  split "/" 3 ("spiffe://" ++ a ++ "/" ++ p) = ["spiffe:"; ""; a; p].
Proof.
  intros Ha. unfold split.
  change ("spiffe://" ++ a ++ "/" ++ p)
    with ("spiffe:" ++ String "/" (String "/" (a ++ "/" ++ p))).
  rewrite cut_at by reflexivity.
  change (String "/" (a ++ "/" ++ p)) with ("" ++ String "/" (a ++ "/" ++ p)).
  rewrite cut_at by reflexivity.
  change (a ++ "/" ++ p) with (a ++ String "/" p).
  now rewrite cut_at.
Qed.

Lemma split_without_path (a : string) :
  free_of "/" a = true ->
  split "/" 3 ("spiffe://" ++ a) = ["spiffe:"; ""; a].
Proof.
  intros Ha. unfold split.
  change ("spiffe://" ++ a) with ("spiffe:" ++ String "/" (String "/" a)).
  rewrite cut_at by reflexivity.
  change (String "/" a) with ("" ++ String "/" a).
  rewrite cut_at by reflexivity.
  now rewrite cut_free.
Qed.

Lemma str_in_skip_false (n a b : string) :
  str_in n (a ++ b) = false -> str_in n b = false.
Proof.
  intros H. destruct (str_in n b) eqn:E; [|reflexivity].
  now rewrite (str_in_skip n a b E) in H.
Qed.

(** C10. The parent-ID check is a case-insensitive substring test.  On an
    identity [spiffe://<authority>/<path>] it returns true exactly when
    the lowercased path contains tpm anywhere; on an identity
    [spiffe://<authority>] with no path it returns true exactly when the
    lowercased trust domain contains tpm. *)
Theorem parent_id_check_is_substring_test :
  forall authority path : string,
    free_of "/" authority = true ->
    simulate_agent_parent_id_check ("spiffe://" ++ authority ++ "/" ++ path)
    = str_in "tpm" (lower path) /\
    simulate_agent_parent_id_check ("spiffe://" ++ authority)
    = str_in "tpm" (lower authority).
Proof.
  intros a p Ha. rewrite <- free_of_slash_lower in Ha.
  unfold simulate_agent_parent_id_check. split.
  - rewrite !lower_append.
    change (lower "spiffe://") with "spiffe://".
    change (lower "/") with "/".
    destruct (str_in "tpm" ("spiffe://" ++ lower a ++ "/" ++ lower p)) eqn:E.
    + rewrite str_in_here, (split_with_path _ _ Ha). reflexivity.
    + symmetry. rewrite <- append_assoc in E.
      rewrite <- append_assoc in E.
      exact (str_in_skip_false _ _ _ E).
  - rewrite lower_append.
    change (lower "spiffe://") with "spiffe://".
    destruct (str_in "tpm" ("spiffe://" ++ lower a)) eqn:E.
    + rewrite str_in_here, (split_without_path _ Ha). reflexivity.
    + symmetry. exact (str_in_skip_false _ _ _ E).
Qed.

Lemma parent_id_check_is_substring_test_witness :
  simulate_agent_parent_id_check
    ("spiffe://" ++ "example.org" ++ "/" ++ "my-tpm-workload")
  = str_in "tpm" (lower "my-tpm-workload") /\
  simulate_agent_parent_id_check ("spiffe://" ++ "example.org")
  = str_in "tpm" (lower "example.org").
Proof.
  apply (parent_id_check_is_substring_test "example.org" "my-tpm-workload").
  vm_compute. reflexivity.
Defined.

(** A workload path that merely mentions tpm is classified as attested;
    a trust domain that mentions it is not, unless there is no path. *)
Example parent_id_workload_path :
  simulate_agent_parent_id_check "spiffe://example.org/my-tpm-workload" = true /\
  simulate_agent_parent_id_check
    "spiffe://tpm-company.com/spire/agent/join_token/abc123" = false /\
  simulate_agent_parent_id_check "spiffe://tpm-company.com" = true /\
  simulate_agent_parent_id_check "spiffe://example.org/spire/agent/TPM/abc123" = true.
Proof. repeat split; vm_compute; reflexivity. Qed.

End ParentId.

(** ** Identity extractor *)

Section Extractor.

Import MtlsDemo.

Lemma first_spiffe_uri_cons (e : string * string) (san : list (string * string)) :
  first_spiffe_uri (e :: san)
  = if spiffe_uri_entry e then Some (snd e) else first_spiffe_uri san.
Proof. destruct e; reflexivity. Qed.

Lemma spiffe_uri_entry_true (e : string * string) :
  spiffe_uri_entry e = true <->
  fst e = "URI" /\ startswith (snd e) "spiffe://" = true.
Proof.
  unfold spiffe_uri_entry. rewrite andb_true_iff, String.eqb_eq. tauto.
Qed.

Lemma first_spiffe_uri_find (san : list (string * string)) :
  first_spiffe_uri san = option_map snd (find spiffe_uri_entry san).
Proof.
  induction san as [|e san IH]; [reflexivity|].
  rewrite first_spiffe_uri_cons. cbn [find].
  destruct (spiffe_uri_entry e); [reflexivity | exact IH].
Qed.

Lemma first_spiffe_uri_some (san : list (string * string)) (v : string) :
  first_spiffe_uri san = Some v <->
  exists l1 l2,
    san = (l1 ++ ("URI", v) :: l2)%list /\
    startswith v "spiffe://" = true /\
    forallb (fun e => negb (spiffe_uri_entry e)) l1 = true.
Proof.
  induction san as [|e san IH].
  - split; [discriminate|]. intros (l1 & l2 & H & _). now destruct l1.
  - rewrite first_spiffe_uri_cons.
    destruct (spiffe_uri_entry e) eqn:E.
    + pose proof (proj1 (spiffe_uri_entry_true e) E) as [E1 E2].
      destruct e as [ty w]; cbn [fst snd] in *; subst ty.
      split.
      * intros [= ->]. exists [], san. now repeat split.
      * intros (l1 & l2 & H & Hv & Hl). destruct l1 as [|e l1].
        -- now inversion H.
        -- inversion H; subst e. cbn [forallb] in Hl.
           rewrite E in Hl. discriminate.
    + rewrite IH. split.
      * intros (l1 & l2 & -> & Hv & Hl). exists (e :: l1), l2.
        repeat split; auto. cbn [forallb]. now rewrite E.
      * intros (l1 & l2 & H & Hv & Hl). destruct l1 as [|e' l1].
        -- inversion H; subst e.
           assert (spiffe_uri_entry ("URI", v) = true)
             by now apply spiffe_uri_entry_true.
           congruence.
        -- inversion H; subst. cbn [forallb] in Hl.
           apply andb_true_iff in Hl as [_ Hl].
           now exists l1, l2.
Qed.

Lemma first_spiffe_uri_none (san : list (string * string)) :
  first_spiffe_uri san = None <->
  forallb (fun e => negb (spiffe_uri_entry e)) san = true.
Proof.
  induction san as [|e san IH]; [cbn; tauto|].
  rewrite first_spiffe_uri_cons. cbn [forallb].
  destruct (spiffe_uri_entry e); cbn [negb andb].
  - split; discriminate.
  - exact IH.
Qed.

Lemma first_spiffe_uri_only_uri (san : list (string * string)) :
  first_spiffe_uri san
  = first_spiffe_uri (filter (fun e => String.eqb (fst e) "URI") san).
Proof.
  induction san as [|e san IH]; [reflexivity|].
  cbn [filter]. destruct (String.eqb (fst e) "URI") eqn:E.
  - rewrite !first_spiffe_uri_cons. now rewrite IH.
  - rewrite first_spiffe_uri_cons. unfold spiffe_uri_entry.
    rewrite E. exact IH.
Qed.

Lemma first_spiffe_uri_dns (san : list (string * string)) :
  first_spiffe_uri (filter (fun e => String.eqb (fst e) "DNS") san) = None.
Proof.
  induction san as [|e san IH]; [reflexivity|].
  cbn [filter]. destruct (String.eqb (fst e) "DNS") eqn:E; [|exact IH].
  rewrite first_spiffe_uri_cons. unfold spiffe_uri_entry.
  apply String.eqb_eq in E. rewrite E. exact IH.
Qed.

(** C7. For every list of alternative-name entries the extractor returns
    the value of the first URI-typed entry whose value begins with
    [spiffe://]; it returns None, and raises nothing, when there is no
    such entry or no alternative-name extension at all; entries of another
    type, DNS ones included, have no part in the result. *)
Theorem extract_spiffe_id_first_uri_entry :
  forall (subj iss : option string) (san : list (string * string)),
    extract_spiffe_id (with_san subj iss san)
    = option_map snd (find spiffe_uri_entry san) /\
    (forall v,
        extract_spiffe_id (with_san subj iss san) = Some v <->
        exists l1 l2,
          san = (l1 ++ ("URI", v) :: l2)%list /\
          startswith v "spiffe://" = true /\
          forallb (fun e => negb (spiffe_uri_entry e)) l1 = true) /\
    (extract_spiffe_id (with_san subj iss san) = None <->
     forallb (fun e => negb (spiffe_uri_entry e)) san = true) /\
    extract_spiffe_id (with_san subj iss san)
    = extract_spiffe_id
        (with_san subj iss (filter (fun e => String.eqb (fst e) "URI") san)) /\
    extract_spiffe_id
      (with_san subj iss (filter (fun e => String.eqb (fst e) "DNS") san))
    = None /\
    extract_spiffe_id
      {| subject := subj; issuer := iss; subjectAltName := None |} = None.
Proof.
  intros subj iss san. unfold extract_spiffe_id, with_san.
  cbn [subjectAltName].
  split; [apply first_spiffe_uri_find|].
  split; [intros v; apply first_spiffe_uri_some|].
  split; [apply first_spiffe_uri_none|].
  split; [apply first_spiffe_uri_only_uri|].
  split; [apply first_spiffe_uri_dns | reflexivity].
Qed.

Example extract_spiffe_id_examples :
  extract_spiffe_id
    (with_san None None
       [("URI", "spiffe://example.org/test-workload"); ("DNS", "example.com")])
  = Some "spiffe://example.org/test-workload" /\
  extract_spiffe_id
    (with_san None None
       [("DNS", "spiffe://example.org/dns"); ("URI", "https://example.org");
        ("URI", "spiffe://example.org/a"); ("URI", "spiffe://example.org/b")])
  = Some "spiffe://example.org/a" /\
  extract_spiffe_id (with_san None None [("DNS", "spiffe://example.org/dns")])
  = None.
Proof. repeat split; reflexivity. Qed.

End Extractor.

(** ** The matcher against its declarative reading *)

Section Matcher_correct.

Lemma strip_prefix_spec (l s s' : string) :
  strip_prefix l s = Some s' <-> s = l ++ s'.
Proof.
  revert s; induction l as [|a l IH]; intros s; simpl.
  - split; [now intros [= ->] | now intros ->].
  - destruct s as [|b s]; [split; discriminate|].
    destruct (Ascii.eqb_spec a b) as [->|Hab].
    + rewrite IH. split; [now intros -> | now intros [= ->]].
    + split; [discriminate | intros [= -> _]; contradiction].
Qed.

Lemma substring_prefix (w s : string) :
  substring 0 (String.length w) (w ++ s) = w.
Proof.
  induction w as [|c w IH]; simpl.
  - now destruct s.
  - now rewrite IH.
Qed.

Lemma at_eol_spec (s : string) : at_eol s = true <-> s = "" \/ s = nl.
Proof.
  destruct s as [|c [|d s]]; simpl.
  - tauto.
  - split.
    + intros H; apply Ascii.eqb_eq in H; subst; now right.
    + intros [H|H]; [discriminate|]. inversion H. apply Ascii.eqb_refl.
  - split; [discriminate | intros [H|H]; discriminate].
Qed.

Lemma plus_loop_sound cs (s : string) :
  forall pos g (k : cont) m,
    plus_loop cs pos s g k = Some m ->
    exists w rest,
      s = w ++ rest /\ w <> "" /\ all_chars (in_class cs) w = true /\
      k (pos + String.length w) rest g = Some m.
Proof.
  induction s as [|c s IH]; intros pos g k m H; simpl in H; [discriminate|].
  destruct (in_class cs c) eqn:Hc; [|discriminate].
  destruct (plus_loop cs (S pos) s g k) eqn:E.
  - injection H as ->.
    destruct (IH _ _ _ _ E) as (w & rest & -> & _ & Hw & Hk).
    exists (String c w), rest. repeat split; [discriminate | |].
    + simpl. now rewrite Hc.
    + simpl. now rewrite Nat.add_succ_r.
  - exists (String c ""), s. repeat split; [discriminate | |].
    + simpl. now rewrite Hc.
    + simpl. now rewrite Nat.add_1_r.
Qed.

Lemma plus_loop_complete cs (w : string) :
  forall rest pos g (k : cont),
    w <> "" -> all_chars (in_class cs) w = true ->
    k (pos + String.length w) rest g <> None ->
    plus_loop cs pos (w ++ rest) g k <> None.
Proof.
  induction w as [|c w IH]; intros rest pos g k Hne Hw Hk; [contradiction|].
  simpl in *. apply andb_true_iff in Hw as [Hc Hw]. rewrite Hc.
  destruct (plus_loop cs (S pos) (w ++ rest) g k) eqn:E; [discriminate|].
  destruct w as [|d w].
  - simpl in *. now rewrite Nat.add_1_r in Hk.
  - exfalso. revert E. apply IH; [discriminate | exact Hw |].
    now rewrite Nat.add_succ_r in Hk.
Qed.

(** Whatever the matcher returns was reached along a declarative match. *)
Lemma rx_sound (r : regex) :
  forall pos s g (k : cont) m,
    rx r pos s g k = Some m ->
    exists w rest g',
      s = w ++ rest /\ matches r pos w rest g g' /\
      k (pos + String.length w) rest g' = Some m.
Proof.
  induction r as [ | | l | cs | cs | r1 IH1 r2 IH2 | r1 IH1 r2 IH2 | i r IH];
    intros pos s g k m H; simpl in H.
  - destruct (Nat.eqb_spec pos 0) as [->|]; [|discriminate].
    exists "", s, g. repeat split; [constructor | exact H].
  - destruct (at_eol s) eqn:E; [|discriminate].
    exists "", s, g. repeat split; [now constructor |].
    simpl. now rewrite Nat.add_0_r.
  - destruct (strip_prefix l s) as [s'|] eqn:E; [|discriminate].
    apply strip_prefix_spec in E. exists l, s', g.
    repeat split; [exact E | constructor | exact H].
  - destruct s as [|c s]; [discriminate|].
    destruct (in_class cs c) eqn:E; [|discriminate].
    exists (String c ""), s, g. repeat split; [now constructor |].
    simpl. now rewrite Nat.add_1_r.
  - destruct (plus_loop_sound _ _ _ _ _ _ H) as (w & rest & -> & Hne & Hw & Hk).
    exists w, rest, g. repeat split; [now constructor | exact Hk].
  - destruct (rx r1 pos s g k) eqn:E.
    + injection H as ->.
      destruct (IH1 _ _ _ _ _ E) as (w & rest & g' & -> & Hm & Hk).
      exists w, rest, g'. repeat split; [now apply m_alt_l | exact Hk].
    + destruct (IH2 _ _ _ _ _ H) as (w & rest & g' & -> & Hm & Hk).
      exists w, rest, g'. repeat split; [now apply m_alt_r | exact Hk].
  - destruct (IH1 _ _ _ _ _ H) as (w1 & s1 & g1 & -> & Hm1 & Hk1).
    destruct (IH2 _ _ _ _ _ Hk1) as (w2 & rest & g2 & -> & Hm2 & Hk2).
    exists (w1 ++ w2), rest, g2. repeat split.
    + now rewrite append_assoc.
    + now apply m_cat with g1.
    + now rewrite length_append, Nat.add_assoc.
  - destruct (IH _ _ _ _ _ H) as (w & rest & g' & -> & Hm & Hk).
    exists w, rest, (set_group i w g'). repeat split; [now constructor|].
    replace (pos + String.length w - pos) with (String.length w) in Hk by lia.
    now rewrite substring_prefix in Hk.
Qed.

(** Every declarative match that the continuation accepts makes the
    matcher succeed. *)
Lemma rx_complete (r : regex) pos w rest g g' :
  matches r pos w rest g g' ->
  forall k : cont,
    k (pos + String.length w) rest g' <> None ->
    rx r pos (w ++ rest) g k <> None.
Proof.
  induction 1 as [ rest g | pos rest g He | l pos rest g | cs pos c rest g Hc
                 | cs pos w rest g Hne Hw
                 | r1 r2 pos w rest g g' _ IH | r1 r2 pos w rest g g' _ IH
                 | r1 r2 pos w1 w2 rest g g1 g2 _ IH1 _ IH2
                 | i r pos w rest g g' _ IH ];
    intros k Hk; simpl rx.
  - exact Hk.
  - simpl in *. rewrite He. now rewrite Nat.add_0_r in Hk.
  - destruct (strip_prefix l (l ++ rest)) as [s'|] eqn:E.
    + apply strip_prefix_spec in E.
      assert (s' = rest) as ->; [|exact Hk].
      clear -E. induction l; simpl in E; [congruence|].
      injection E as E. auto.
    + assert (strip_prefix l (l ++ rest) = Some rest) as E'
        by now apply strip_prefix_spec.
      congruence.
  - simpl. rewrite Hc. simpl in Hk. now rewrite Nat.add_1_r in Hk.
  - now apply plus_loop_complete.
  - specialize (IH k Hk). now destruct (rx r1 pos (w ++ rest) g k).
  - destruct (rx r1 pos (w ++ rest) g k); [discriminate | now apply IH].
  - rewrite append_assoc. apply IH1. apply IH2.
    now rewrite length_append, Nat.add_assoc in Hk.
  - apply IH.
    replace (pos + String.length w - pos) with (String.length w) by lia.
    now rewrite substring_prefix.
Qed.

Lemma re_match_sound (r : regex) (s : string) (m : groups) :
  re_match r s = Some m ->
  exists w rest, s = w ++ rest /\ matches r 0 w rest [] m.
Proof.
  intros H. destruct (rx_sound _ _ _ _ _ _ H) as (w & rest & g' & E & Hm & Hk).
  injection Hk as ->. now exists w, rest.
Qed.

Lemma re_match_complete (r : regex) (w rest : string) (m : groups) :
  matches r 0 w rest [] m -> re_match r (w ++ rest) <> None.
Proof.
  intros H. unfold re_match. now apply (rx_complete _ _ _ _ _ _ H).
Qed.

End Matcher_correct.

(** ** Identity format validator *)

Ltac invert_matches :=
  repeat match goal with
         | H : matches (Cat _ _) _ _ _ _ _ |- _ => inversion H; subst; clear H
         | H : matches Bol _ _ _ _ _ |- _ => inversion H; subst; clear H
         | H : matches Eol _ _ _ _ _ |- _ => inversion H; subst; clear H
         | H : matches (Lit _) _ _ _ _ _ |- _ => inversion H; subst; clear H
         | H : matches (Plus _) _ _ _ _ _ |- _ => inversion H; subst; clear H
         | H : matches (Cls _) _ _ _ _ _ |- _ => inversion H; subst; clear H
         | H : matches (Group _ _) _ _ _ _ _ |- _ => inversion H; subst; clear H
         | H : matches (Alt _ _) _ _ _ _ _ |- _ => inversion H; subst; clear H
         end.

Section AgentFormat.

Lemma agent_pattern_matches (w rest : string) (m : groups) :
  matches tpm_agent_pattern 0 w rest [] m <->
  agent_id_format w /\ at_eol rest = true /\ m = [].
Proof.
  unfold tpm_agent_pattern, agent_id_format. split.
  - intros H. invert_matches.
    repeat split; auto.
    match goal with
    | H1 : all_chars (in_class trust_domain_char) ?td = true,
      H2 : all_chars (in_class hexdigit) ?h = true |- _ =>
        exists td, h
    end.
    repeat split; auto. cbn [append]. now rewrite append_nil_r.
  - intros ((td & h & -> & Htd & Hctd & Hh & Hch) & He & ->).
    replace ("spiffe://" ++ td ++ "/spire/agent/tpm/" ++ h)
      with ("" ++ "spiffe://" ++ td ++ "/spire/agent/tpm/" ++ h ++ "")
      by (cbn [append]; now rewrite append_nil_r).
    repeat (eapply m_cat); try (now constructor); constructor.
Qed.

(** X2. What the validator accepts: the identities of the agent format, and
    those followed by one line feed. *)
Theorem tpm_agent_format_accepted (u : string) :
  validate_tpm_agent_spiffe_id_format u = true <->
  agent_id_format u \/ exists t, u = t ++ nl /\ agent_id_format t.
Proof.
  unfold validate_tpm_agent_spiffe_id_format. split.
  - destruct (re_match tpm_agent_pattern u) as [m|] eqn:E; [|discriminate].
    intros _. apply re_match_sound in E as (w & rest & -> & H).
    apply agent_pattern_matches in H as (Hw & He & _).
    apply at_eol_spec in He as [-> | ->].
    + left. now rewrite append_nil_r.
    + right. now exists w.
  - intros H.
    assert (exists w rest, u = w ++ rest /\ agent_id_format w /\ at_eol rest = true)
      as (w & rest & -> & Hw & He).
    { destruct H as [H | (t & -> & H)].
      - exists u, "". now rewrite append_nil_r.
      - now exists t, nl. }
    assert (matches tpm_agent_pattern 0 w rest [] []) as Hm
      by now apply agent_pattern_matches.
    apply re_match_complete in Hm.
    now destruct (re_match tpm_agent_pattern (w ++ rest)).
Qed.

Lemma agent_id_format_no_newline (u : string) :
  agent_id_format u -> free_of newline u = true.
Proof.
  intros (td & h & -> & _ & Htd & _ & Hh).
  rewrite !free_of_append.
  rewrite (all_chars_free_of _ newline _ eq_refl Htd).
  now rewrite (all_chars_free_of _ newline _ eq_refl Hh).
Qed.

(** C4. The validator accepts an identity that is followed by a line
    feed, which the agent format, with nothing after the hexadecimal
    suffix, excludes. *)
Theorem tpm_agent_format_trailing_newline :
  validate_tpm_agent_spiffe_id_format
    ("spiffe://example.org/spire/agent/tpm/a3f5d8c2e1b4" ++ nl) = true /\
  ~ agent_id_format ("spiffe://example.org/spire/agent/tpm/a3f5d8c2e1b4" ++ nl).
Proof.
  split; [vm_compute; reflexivity|].
  intros H. apply agent_id_format_no_newline in H.
  vm_compute in H. discriminate.
Qed.

(** The cases the specification lists. *)
Example tpm_agent_format_examples :
  validate_tpm_agent_spiffe_id_format
    "spiffe://example.org/spire/agent/tpm/a3f5d8c2e1b4" = true /\
  validate_tpm_agent_spiffe_id_format
    "spiffe://tpm-company.com/spire/agent/join_token/abc123" = false /\
  validate_tpm_agent_spiffe_id_format
    "spiffe://example.org/spire/agent/tpm/" = false.
Proof. repeat split; vm_compute; reflexivity. Qed.

End AgentFormat.

(** ** Selector validator *)

Section SelectorFormat.

Lemma digit_cases (c : ascii) :
  in_class digit c = true ->
  In c ["0"; "1"; "2"; "3"; "4"; "5"; "6"; "7"; "8"; "9"]%char.
Proof.
  destruct c as [[] [] [] [] [] [] [] []]; intros H;
    vm_compute in H; try discriminate H; cbn; tauto.
Qed.

Lemma low_digit_cases (c : ascii) :
  in_class [("0", "3")]%char c = true -> In c ["0"; "1"; "2"; "3"]%char.
Proof.
  destruct c as [[] [] [] [] [] [] [] []]; intros H;
    vm_compute in H; try discriminate H; cbn; tauto.
Qed.

Lemma index_matches_sound pos idx rest g g' :
  matches index_pattern pos idx rest g g' ->
  In idx pcr_indices /\ g' = set_group 1 idx g.
Proof.
  unfold index_pattern. intros H. invert_matches; (split; [|reflexivity]).
  - match goal with H : in_class digit _ = true |- _ =>
      apply digit_cases in H; cbn in H; decompose [or] H; subst; cbn; tauto
    end.
  - match goal with H : in_class digit _ = true |- _ =>
      apply digit_cases in H; cbn in H; decompose [or] H; subst; cbn; tauto
    end.
  - match goal with H : in_class _ _ = true |- _ =>
      apply low_digit_cases in H; cbn in H; decompose [or] H; subst; cbn; tauto
    end.
Qed.

Lemma index_matches_complete pos idx rest g :
  In idx pcr_indices ->
  matches index_pattern pos idx rest g (set_group 1 idx g).
Proof.
  unfold index_pattern. intros H. constructor.
  cbn in H.
  decompose [or] H; subst; try contradiction;
    first
      [ apply m_alt_l; constructor; reflexivity
      | apply m_alt_r, m_alt_l;
        lazymatch goal with
        | |- matches _ _ (String ?a (String ?b "")) _ _ _ =>
            apply (m_cat _ _ pos (String a "") (String b "") rest g g g);
            constructor; reflexivity
        end
      | apply m_alt_r, m_alt_r;
        lazymatch goal with
        | |- matches _ _ (String ?a (String ?b "")) _ _ _ =>
            apply (m_cat _ _ pos (String a "") (String b "") rest g g g);
            constructor; reflexivity
        end ].
Qed.

Lemma index_facts (idx : string) :
  In idx pcr_indices -> free_of ":" idx = true /\ int idx <= 23.
Proof.
  intros H. cbn in H.
  decompose [or] H; subst; try contradiction; split;
    solve [reflexivity | vm_compute; lia].
Qed.

Lemma selector_pattern_matches (w rest : string) (m : groups) :
  matches pcr_selector_pattern 0 w rest [] m <->
  exists idx h,
    w = "tpm:pcr:" ++ idx ++ ":" ++ h /\
    In idx pcr_indices /\
    h <> "" /\ all_chars (in_class hexdigit) h = true /\
    at_eol rest = true /\ m = [(2, h); (1, idx)].
Proof.
  unfold pcr_selector_pattern. split.
  - intros H.
    repeat match goal with
           | H : matches (Cat _ _) _ _ _ _ _ |- _ => inversion H; subst; clear H
           | H : matches Bol _ _ _ _ _ |- _ => inversion H; subst; clear H
           | H : matches Eol _ _ _ _ _ |- _ => inversion H; subst; clear H
           | H : matches (Lit _) _ _ _ _ _ |- _ => inversion H; subst; clear H
           | H : matches (Group 2 _) _ _ _ _ _ |- _ => inversion H; subst; clear H
           | H : matches (Plus _) _ _ _ _ _ |- _ => inversion H; subst; clear H
           end.
    match goal with
    | H : matches index_pattern _ ?idx _ _ _ |- _ =>
        apply index_matches_sound in H as [Hi ->]; exists idx
    end.
    match goal with
    | H : all_chars (in_class hexdigit) ?h = true |- _ => exists h
    end.
    repeat split; auto. cbn [append]. now rewrite append_nil_r.
  - intros (idx & h & -> & Hi & Hne & Hh & He & ->).
    replace ("tpm:pcr:" ++ idx ++ ":" ++ h)
      with ("" ++ "tpm:pcr:" ++ idx ++ ":" ++ h ++ "")
      by (cbn [append]; now rewrite append_nil_r).
    eapply m_cat; [constructor|].
    eapply m_cat; [constructor|].
    eapply m_cat; [now apply index_matches_complete|].
    eapply m_cat; [constructor|].
    eapply m_cat; [|now constructor].
    apply (m_group 2 (Plus hexdigit)). now constructor.
Qed.

Lemma append_inv_head (l a b : string) : l ++ a = l ++ b -> a = b.
Proof. induction l; simpl; intros H; [exact H | injection H; auto]. Qed.

(** A text free of line feeds followed by an end of line splits in one
    way only. *)
Lemma eol_split_unique (h h' r r' : string) :
  free_of newline h = true -> free_of newline h' = true ->
  at_eol r = true -> at_eol r' = true ->
  h ++ r = h' ++ r' -> h = h'.
Proof.
  intros Hh Hh' Hr Hr'. apply at_eol_spec in Hr, Hr'.
  revert h' Hh'. induction h as [|c h IH]; intros h' Hh' E.
  - destruct h' as [|c' h']; [reflexivity|]. exfalso.
    simpl in E, Hh'. apply andb_true_iff in Hh' as [Hc _].
    destruct Hr as [-> | ->]; [discriminate|].
    injection E as E1 _. subst c'. vm_compute in Hc. discriminate.
  - simpl in Hh. apply andb_true_iff in Hh as [Hc Hh].
    destruct h' as [|c' h'].
    + exfalso. simpl in E.
      destruct Hr' as [-> | ->]; [discriminate|].
      injection E as E1 _. subst c. vm_compute in Hc. discriminate.
    + simpl in E, Hh'. apply andb_true_iff in Hh' as [_ Hh'].
      injection E as -> E. f_equal. now apply IH.
Qed.

Lemma valid_length_spec (n : nat) :
  existsb (Nat.eqb n) valid_hash_lengths = true <-> In n valid_hash_lengths.
Proof.
  rewrite existsb_exists. split.
  - intros (x & Hx & E). apply Nat.eqb_eq in E. now subst.
  - intros H. exists n. split; [exact H | apply Nat.eqb_refl].
Qed.

(** Once the pattern has matched, the verdict is the length test on the
    captured digest. *)
Lemma validate_after_match (w rest : string) (idx h : string) :
  w = "tpm:pcr:" ++ idx ++ ":" ++ h ->
  In idx pcr_indices -> all_chars (in_class hexdigit) h = true ->
  at_eol rest = true ->
  re_match pcr_selector_pattern (w ++ rest) <> None ->
  validate_pcr_selector_format (w ++ rest)
  = existsb (Nat.eqb (String.length h)) valid_hash_lengths.
Proof.
  intros -> Hi Hh He Hm. unfold validate_pcr_selector_format.
  destruct (re_match pcr_selector_pattern _) as [m|] eqn:E; [clear Hm|congruence].
  apply re_match_sound in E as (w' & rest' & E & H).
  apply selector_pattern_matches in H
    as (idx' & h' & -> & Hi' & _ & Hh' & He' & ->).
  rewrite !append_assoc in E. apply append_inv_head in E.
  change (":" ++ ?x) with (String ":" x) in E.
  assert (cut ":" (idx ++ String ":" (h ++ rest))
          = cut ":" (idx' ++ String ":" (h' ++ rest'))) as C by now rewrite E.
  rewrite !cut_at in C by now apply index_facts.
  injection C as _ C.
  assert (h' = h) as ->.
  { symmetry. apply (eol_split_unique h h' rest rest'); auto;
      apply (all_chars_free_of (in_class hexdigit));
      solve [reflexivity | assumption]. }
  cbn [group Nat.eqb].
  destruct (index_facts _ Hi') as [_ Hle].
  replace (int idx' <? 0)%nat with false by (symmetry; now apply Nat.ltb_ge; lia).
  replace (23 <? int idx')%nat with false by (symmetry; apply Nat.ltb_ge; lia).
  cbn [orb]. now destruct (existsb _ _).
Qed.

(** X1. What the validator accepts: the selectors of the format, and those
    followed by one line feed. *)
Theorem pcr_selector_accepted (s : string) :
  validate_pcr_selector_format s = true <->
  selector_format s \/ exists t, s = t ++ nl /\ selector_format t.
Proof.
  split.
  - intros H.
    destruct (re_match pcr_selector_pattern s) as [m|] eqn:E;
      [|unfold validate_pcr_selector_format in H; now rewrite E in H].
    pose proof E as E'.
    apply re_match_sound in E' as (w & rest & -> & Hm).
    apply selector_pattern_matches in Hm
      as (idx & h & Hw & Hi & _ & Hh & He & _).
    rewrite (validate_after_match w rest idx h) in H; auto; [|congruence].
    apply valid_length_spec in H.
    assert (selector_format w) as Hf by (exists idx, h; auto).
    apply at_eol_spec in He as [-> | ->].
    + left. now rewrite append_nil_r.
    + right. now exists w.
  - intros H.
    assert (exists w rest, s = w ++ rest /\ selector_format w /\ at_eol rest = true)
      as (w & rest & -> & (idx & h & -> & Hi & Hh & Hl) & He).
    { destruct H as [H | (t & -> & H)].
      - exists s, "". now rewrite append_nil_r.
      - now exists t, nl. }
    assert (h <> "") as Hne.
    { intros ->. cbn in Hl. intuition discriminate. }
    rewrite (validate_after_match _ rest idx h); auto.
    + now apply valid_length_spec.
    + apply re_match_complete with (m := [(2, h); (1, idx)]).
      apply selector_pattern_matches. exists idx, h. auto 10.
Qed.

Lemma selector_format_no_newline (s : string) :
  selector_format s -> free_of newline s = true.
Proof.
  intros (idx & h & -> & Hi & Hh & _).
  rewrite !free_of_append.
  rewrite (all_chars_free_of _ newline _ eq_refl Hh).
  cbn in Hi. decompose [or] Hi; subst; try contradiction; reflexivity.
Qed.

(** C3. The validator accepts a selector that is followed by a line feed,
    which is not of the selector format. *)
Theorem pcr_selector_trailing_newline :
  validate_pcr_selector_format
    ("tpm:pcr:0:0123456789abcdef0123456789abcdef" ++ nl) = true /\
  ~ selector_format ("tpm:pcr:0:0123456789abcdef0123456789abcdef" ++ nl).
Proof.
  split; [vm_compute; reflexivity|].
  intros H. apply selector_format_no_newline in H.
  vm_compute in H. discriminate.
Qed.

(** The rejections the specification lists, and two acceptances. *)
Example pcr_selector_examples :
  validate_pcr_selector_format "tpm:pcr:0:0123456789abcdef0123456789abcdef" = true /\
  validate_pcr_selector_format "tpm:pcr:23:0123456789ABCDEF0123456789abcdef" = true /\
  validate_pcr_selector_format "pcr:0:0123456789abcdef0123456789abcdef" = false /\
  validate_pcr_selector_format "docker:pcr:0:0123456789abcdef0123456789abcdef" = false /\
  validate_pcr_selector_format "tpm:pcr:24:0123456789abcdef0123456789abcdef" = false /\
  validate_pcr_selector_format "tpm:pcr:-1:0123456789abcdef0123456789abcdef" = false /\
  validate_pcr_selector_format "tpm:pcr:01:0123456789abcdef0123456789abcdef" = false /\
  validate_pcr_selector_format "tpm:pcr:0:0123456789abcdef0123456789abcdeg" = false /\
  validate_pcr_selector_format "tpm:pcr:0:0123456789abcdef0123456789abcdef0" = false /\
  validate_pcr_selector_format "tpm:pcr" = false /\
  validate_pcr_selector_format "tpm:pcr:0" = false /\
  validate_pcr_selector_format "tpm:pcr:0:0123456789abcdef0123456789abcdef:extra" = false.
Proof. repeat split; vm_compute; reflexivity. Qed.

End SelectorFormat.

(** ** Mutual-TLS responder *)

Section Responder.

Import MtlsDemo.

Lemma accepts_app (t1 t2 : list event) :
  accepts (t1 ++ t2) = (accepts t1 ++ accepts t2)%list.
Proof.
  induction t1 as [|e t1 IH]; [reflexivity|].
  destruct e; simpl; now rewrite ?IH.
Qed.


Lemma accepts_calls (t : list event) : accepts (calls t) = accepts t.
Proof.
  induction t as [|e t IH]; [reflexivity|]. destruct e; simpl; now rewrite ?IH.
Qed.

(** One turn of the phase-4 loop, read as socket calls. *)
Lemma serve_calls (c : nat) (o : accept_outcome) :
  calls (serve c o) = turn_calls true c o.
Proof.
  destruct o as [[addr [] [[s|] [i|] san] [] [d|] [] []] | e];
    try reflexivity;
    unfold serve, serve_body; cbn [peer_cert subject issuer];
    destruct (extract_spiffe_id _); reflexivity.
Qed.

Lemma serve_once_calls (o : accept_outcome) :
  calls (Exn.try_except (Phase1.serve_once o)
           (fun e => Exn.print ("[Server] Error: " ++ e)))
  = (turn_calls false 0 o
     ++ if (progress false o =? 5)%nat then [CloseListener] else [])%list.
Proof.
  destruct o as [[addr [] [[s|] [i|] san] own [d|] [] []] | e]; reflexivity.
Qed.

Lemma progress_accepted (own : bool) (p : peer) :
  exists n, progress own (Accepted p) = S n.
Proof.
  unfold progress.
  repeat match goal with |- context [if ?b then _ else _] => destruct b end;
    eauto.
Qed.

Lemma accepts_prefix (n c : nat) :
  accepts (firstn n (exchange c)) = match n with 0 => [] | S _ => [c] end.
Proof. do 6 (destruct n as [|n]; [reflexivity|]). reflexivity. Qed.

Lemma accepts_turn (own : bool) (c : nat) (o : accept_outcome) :
  accepts (turn_calls own c o) = if is_accepted o then [c] else [].
Proof.
  destruct o as [p|e]; [|reflexivity]. cbn [turn_calls is_accepted].
  destruct (handshake_ok p); [|reflexivity].
  rewrite accepts_prefix. destruct (progress_accepted own p) as [k ->].
  reflexivity.
Qed.

Lemma progress_cooperative (p : peer) :
  (progress true (Accepted p) =? 5)%nat = cooperative p.
Proof.
  destruct p as [addr [] [[s|] [i|] san] [] [d|] [] []]; reflexivity.
Qed.



Lemma loop_accepts (incoming : list accept_outcome) :
  forall c,
    accepts (run_server_loop c incoming)
    = map fst (filter (fun co => is_accepted (snd co))
                      (combine (seq c (List.length incoming)) incoming)).
Proof.
  induction incoming as [|o rest IH]; intros c; [reflexivity|].
  cbn [run_server_loop List.length seq combine filter snd].
  rewrite accepts_app, IH, <- accepts_calls, serve_calls, accepts_turn.
  destruct (is_accepted o); reflexivity.
Qed.



(** The phase-1 responder, by contrast, makes a single turn: it accepts at
    most one connection, whatever else is waiting, closes the listener
    after a complete exchange and returns. *)
Lemma phase1_responder_single_turn (o : accept_outcome)
    (incoming : list accept_outcome) :
  calls (fst (Phase1.run_server true (o :: incoming)))
  = (Listen :: turn_calls false 0 o
     ++ if (progress false o =? 5)%nat then [CloseListener] else [])%list /\
  accepts (fst (Phase1.run_server true (o :: incoming)))
  = (if is_accepted o then [0] else []) /\
  snd (Phase1.run_server true (o :: incoming)) = Returned.
Proof.
  assert (calls (fst (Phase1.run_server true (o :: incoming)))
          = (Listen :: turn_calls false 0 o
             ++ if (progress false o =? 5)%nat then [CloseListener] else [])%list)
    as Hcalls.
  { cbn [Phase1.run_server fst calls]. now rewrite serve_once_calls. }
  split; [exact Hcalls|]. split; [|reflexivity].
  rewrite <- accepts_calls, Hcalls. cbn [accepts].
  rewrite accepts_app, accepts_turn.
  destruct (is_accepted o), (progress false o =? 5)%nat; reflexivity.
Qed.

End Responder.


(** * Further properties of the code *)

(** ** The two PCR checks together *)

Section MatcherAlgebra.

Lemma match_check_eqb (a b : string) :
  simulate_pcr_match_check a b = String.eqb (lower a) (lower b).
Proof. reflexivity. Qed.

(** X3. The two PCR checks never disagree: a request is denied exactly when
    the match check refuses to issue, and the diagnostic is empty exactly
    when the request is not denied. *)
Theorem pcr_checks_complementary :
  forall registered current : string,
    fst (simulate_pcr_mismatch_check registered current)
    = negb (simulate_pcr_match_check registered current) /\
    String.eqb (snd (simulate_pcr_mismatch_check registered current)) ""
    = simulate_pcr_match_check registered current.
Proof.
  intros r c. rewrite match_check_eqb. unfold simulate_pcr_mismatch_check.
  destruct (String.eqb (lower r) (lower c)); split; reflexivity.
Qed.

(** X4. Matching is an equivalence on digests that ignores letter case: it
    is reflexive, symmetric and transitive, and lowercasing either digest
    does not change the verdict. *)
Theorem pcr_match_is_equivalence :
  forall a b c : string,
    simulate_pcr_match_check a a = true /\
    simulate_pcr_match_check a b = simulate_pcr_match_check b a /\
    implb (simulate_pcr_match_check a b && simulate_pcr_match_check b c)
          (simulate_pcr_match_check a c) = true /\
    simulate_pcr_match_check (lower a) b = simulate_pcr_match_check a b /\
    simulate_pcr_match_check a (lower b) = simulate_pcr_match_check a b.
Proof.
  intros a b c. rewrite !match_check_eqb, !lower_idempotent.
  split; [apply String.eqb_refl|].
  split; [apply String.eqb_sym|].
  split; [|split; reflexivity].
  destruct (String.eqb_spec (lower a) (lower b)) as [E1|]; [|reflexivity].
  destruct (String.eqb_spec (lower b) (lower c)) as [E2|]; [|reflexivity].
  rewrite E1, E2, String.eqb_refl. reflexivity.
Qed.

End MatcherAlgebra.

(** ** What the status report ignores *)

Section StatusInputs.

(** X5. The verdict is the identity flag alone.  Log evidence never changes
    an inactive report, device reachability never changes an active report
    that lacks log evidence, and the two inactive explanations differ with
    device reachability. *)
Theorem status_report_ignored_inputs :
  forall a b c : bool,
    snd (simulate_verification_status_report a b c) = a /\
    simulate_verification_status_report false b c
    = simulate_verification_status_report false (negb b) c /\
    simulate_verification_status_report true false c
    = simulate_verification_status_report true false (negb c) /\
    fst (simulate_verification_status_report false b true)
    <> fst (simulate_verification_status_report false b false).
Proof.
  intros [] [] []; repeat split; try reflexivity; discriminate.
Qed.

End StatusInputs.

(** ** Log check *)

Section LogCheck.

Import TpmSetupLogs.

Lemma any_keyword_spec (keywords : list string) (log : string) :
  any_keyword keywords log = true <->
  exists k, In k keywords /\ str_in k log = true.
Proof.
  induction keywords as [|k ks IH]; simpl.
  - split; [discriminate | intros (k & [] & _)].
  - destruct (str_in k log) eqn:E.
    + split; [|reflexivity]. intros _. exists k. auto.
    + rewrite IH. split.
      * intros (k' & Hin & Hk). exists k'. auto.
      * intros (k' & [<- | Hin] & Hk); [congruence|]. exists k'. auto.
Qed.

Lemma log_check_spec (log : string) :
  simulate_log_check_for_tpm_initialization log = true <->
  str_in "tpm" (lower log) = true /\
  exists k, In k init_keywords /\ str_in k (lower log) = true.
Proof.
  unfold simulate_log_check_for_tpm_initialization.
  destruct (str_in "tpm" (lower log)); cbn [negb].
  - rewrite any_keyword_spec. tauto.
  - split; [discriminate | intros [H _]; discriminate].
Qed.

Lemma str_in_context (n pre s post : string) :
  str_in n s = true -> str_in n (pre ++ s ++ post) = true.
Proof. intros H. apply str_in_skip, str_in_extend, H. Qed.

(** X6. A log is reported as showing TPM initialization exactly when its
    lowercased text contains tpm and at least one of the eleven keywords,
    anywhere and in any order; two logs that differ in letter case only
    get the same verdict. *)
Theorem log_check_characterised :
  forall log : string,
    (simulate_log_check_for_tpm_initialization log = true <->
     str_in "tpm" (lower log) = true /\
     exists k, In k init_keywords /\ str_in k (lower log) = true) /\
    simulate_log_check_for_tpm_initialization (lower log)
    = simulate_log_check_for_tpm_initialization log.
Proof.
  intros log. split; [apply log_check_spec|].
  unfold simulate_log_check_for_tpm_initialization.
  now rewrite lower_idempotent.
Qed.

(** X7. Detection is kept under added context: a log in which TPM
    initialization is detected is still detected with any text before and
    after it. *)
Theorem log_check_monotone :
  forall pre log post : string,
    simulate_log_check_for_tpm_initialization log = true ->
    simulate_log_check_for_tpm_initialization (pre ++ log ++ post) = true.
Proof.
  intros pre log post H.
  apply log_check_spec in H as (Ht & k & Hin & Hk).
  apply log_check_spec. rewrite !lower_append. split.
  - now apply str_in_context.
  - exists k. split; [exact Hin | now apply str_in_context].
Qed.

Lemma log_check_monotone_witness :
  simulate_log_check_for_tpm_initialization
    ("10:00:01 INFO: Loading" ++ "TPM node attestor initialized" ++ "; ready")
  = true.
Proof.
  apply (log_check_monotone "10:00:01 INFO: Loading"
                            "TPM node attestor initialized" "; ready").
  vm_compute. reflexivity.
Defined.

(** X8. The mention of tpm and the keyword need not belong together: a
    text that mentions tpm joined, in either order, with a text that holds
    a keyword is reported, so a failure line such as a TPM device that was
    not found counts as initialization. *)
Theorem log_check_unrelated_parts :
  forall (a b k : string),
    str_in "tpm" (lower a) = true ->
    In k init_keywords -> str_in k (lower b) = true ->
    simulate_log_check_for_tpm_initialization (a ++ b) = true /\
    simulate_log_check_for_tpm_initialization (b ++ a) = true.
Proof.
  intros a b k Ha Hin Hb.
  split; apply log_check_spec; rewrite lower_append; split;
    try (exists k; split; [exact Hin|]);
    solve [now apply str_in_extend | now apply str_in_skip].
Qed.

Lemma log_check_unrelated_parts_witness :
  simulate_log_check_for_tpm_initialization
    ("ERROR: TPM " ++ "device not found") = true /\
  simulate_log_check_for_tpm_initialization
    ("device not found" ++ "ERROR: TPM ") = true.
Proof.
  apply (log_check_unrelated_parts "ERROR: TPM " "device not found" "device").
  - vm_compute. reflexivity.
  - cbn. tauto.
  - vm_compute. reflexivity.
Defined.

End LogCheck.

(** ** Parent-ID check on arbitrary text *)

Section ParentIdAnywhere.

Lemma count_char_append (c : ascii) (a b : string) :
  count_char c (a ++ b) = count_char c a + count_char c b.
Proof.
  induction a as [|x a IH]; simpl; [reflexivity|]. rewrite IH. lia.
Qed.

Lemma cut_count (sep : ascii) (s : string) :
  match cut sep s with
  | None => count_char sep s = 0
  | Some (x, y) =>
      s = x ++ String sep y /\ count_char sep s = S (count_char sep y)
  end.
Proof.
  induction s as [|d s IH]; simpl; [reflexivity|].
  destruct (Ascii.eqb_spec d sep) as [->|Hd].
  - split; reflexivity.
  - destruct (cut sep s) as [[x y]|].
    + destruct IH as [-> ->]. split; reflexivity.
    + exact IH.
Qed.

Lemma split_length (sep : ascii) (n : nat) :
  forall s, List.length (split sep n s) = S (Nat.min n (count_char sep s)).
Proof.
  induction n as [|n IH]; intros s; simpl; [reflexivity|].
  pose proof (cut_count sep s) as H.
  destruct (cut sep s) as [[x y]|].
  - destruct H as [_ ->]. simpl. now rewrite IH.
  - rewrite H. reflexivity.
Qed.

Lemma split_last_suffix (sep : ascii) (n : nat) :
  forall s, exists p, s = p ++ last (split sep n s) "".
Proof.
  induction n as [|n IH]; intros s; simpl; [now exists ""|].
  pose proof (cut_count sep s) as H.
  destruct (cut sep s) as [[x y]|]; [|now exists ""].
  destruct H as [-> _]. destruct (IH y) as [p Hp].
  exists (x ++ String sep p).
  assert (split sep n y <> []) as Hne.
  { intros E. pose proof (split_length sep n y) as L. now rewrite E in L. }
  assert (last (x :: split sep n y) "" = last (split sep n y) "") as ->
    by (destruct (split sep n y); [contradiction | reflexivity]).
  rewrite append_assoc. cbn [append]. now rewrite <- Hp.
Qed.

Lemma str_in_split (n s : string) :
  str_in n s = true -> exists a b, s = a ++ n ++ b.
Proof.
  induction s as [|c s IH]; cbn [str_in]; intros H.
  - rewrite orb_false_r in H. apply startswith_split in H as [t ->].
    now exists "", t.
  - apply orb_true_iff in H as [H|H].
    + apply startswith_split in H as [t ->]. now exists "", t.
    + destruct (IH H) as (a & b & ->). now exists (String c a), b.
Qed.

Lemma scheme_gives_three_pieces (s : string) :
  str_in "spiffe://" s = true -> 3 <= List.length (split "/" 3 s) <= 4.
Proof.
  intros H. apply str_in_split in H as (a & b & ->).
  rewrite split_length, !count_char_append.
  change (count_char "/" "spiffe://") with 2. lia.
Qed.

(** X9. The complete verdict of the parent-ID check.  When the lowercased
    identity contains [spiffe://] anywhere, the verdict is whether tpm
    occurs in the last of the at most four pieces cut at the first three
    slashes, so the final [return True] of that branch is never reached;
    otherwise any text that contains tpm in any letter case passes. *)
Theorem parent_id_check_verdict :
  forall agent_spiffe_id : string,
    simulate_agent_parent_id_check agent_spiffe_id
    = if str_in "spiffe://" (lower agent_spiffe_id)
      then str_in "tpm" (last (split "/" 3 (lower agent_spiffe_id)) "")
      else str_in "tpm" (lower agent_spiffe_id).
Proof.
  intros id. unfold simulate_agent_parent_id_check.
  set (n := lower id).
  destruct (str_in "spiffe://" n) eqn:Hs.
  - pose proof (scheme_gives_three_pieces n Hs) as Hlen.
    destruct (split_last_suffix "/" 3 n) as [p Hp].
    assert (str_in "tpm" (last (split "/" 3 n) "") = true ->
            str_in "tpm" n = true) as Hup.
    { intros H. rewrite Hp. now apply str_in_skip. }
    destruct (split "/" 3 n) as [|p0 [|p1 [|p2 [|p3 [|p4 ps]]]]];
      cbn [List.length] in Hlen; try lia; cbn [List.length nth last] in *.
    + change (4 <=? 3)%nat with false. change (3 =? 3)%nat with true.
      destruct (str_in "tpm" p2); [now rewrite Hup | now destruct (str_in "tpm" n)].
    + change (4 <=? 4)%nat with true.
      destruct (str_in "tpm" p3); [now rewrite Hup | now destruct (str_in "tpm" n)].
  - now destruct (str_in "tpm" n).
Qed.

Example parent_id_check_loose_inputs :
  simulate_agent_parent_id_check "tpm" = true /\
  simulate_agent_parent_id_check "https://TPM.example/agent" = true /\
  simulate_agent_parent_id_check "x-spiffe://a/b/c/tpm" = true /\
  simulate_agent_parent_id_check "tpm/spiffe://a/b" = false.
Proof. repeat split; vm_compute; reflexivity. Qed.

End ParentIdAnywhere.

(** ** From an accepted identity to an active status *)

Section FormatToStatus.

Lemma parent_check_on_path (a p : string) :
  free_of "/" a = true ->
  simulate_agent_parent_id_check ("spiffe://" ++ a ++ "/" ++ p)
  = str_in "tpm" (lower p).
Proof.
  intros Ha. rewrite <- free_of_slash_lower in Ha.
  unfold simulate_agent_parent_id_check.
  rewrite !lower_append.
  change (lower "spiffe://") with "spiffe://".
  change (lower "/") with "/".
  destruct (str_in "tpm" ("spiffe://" ++ lower a ++ "/" ++ lower p)) eqn:E.
  - rewrite str_in_here, (split_with_path _ _ Ha). reflexivity.
  - symmetry. rewrite <- !append_assoc in E.
    exact (str_in_skip_false _ _ _ E).
Qed.

Lemma accepted_agent_shape (u : string) :
  validate_tpm_agent_spiffe_id_format u = true ->
  exists td h rest,
    u = "spiffe://" ++ td ++ "/" ++ "spire/agent/tpm/" ++ h ++ rest /\
    free_of "/" td = true.
Proof.
  unfold validate_tpm_agent_spiffe_id_format.
  destruct (re_match tpm_agent_pattern u) as [m|] eqn:E; [|discriminate].
  intros _. apply re_match_sound in E as (w & rest & -> & H).
  apply agent_pattern_matches in H as ((td & h & -> & _ & Htd & _) & _ & _).
  exists td, h, rest. split.
  - rewrite !append_assoc. reflexivity.
  - now apply (all_chars_free_of (in_class trust_domain_char)).
Qed.

(** X10. An identity the format validator accepts always passes the
    parent-ID check, and the status report built on that check is active
    and says ACTIVE, whatever the log and device flags are. *)
Theorem accepted_agent_identity_is_active :
  forall (u : string) (logs device : bool),
    validate_tpm_agent_spiffe_id_format u = true ->
    simulate_agent_parent_id_check u = true /\
    snd (simulate_verification_status_report
           (simulate_agent_parent_id_check u) logs device) = true /\
    has_word "ACTIVE"
      (fst (simulate_verification_status_report
              (simulate_agent_parent_id_check u) logs device)) = true.
Proof.
  intros u logs device H.
  apply accepted_agent_shape in H as (td & h & rest & -> & Htd).
  assert (simulate_agent_parent_id_check
            ("spiffe://" ++ td ++ "/" ++ "spire/agent/tpm/" ++ h ++ rest) = true)
    as Hc.
  { rewrite (parent_check_on_path _ _ Htd), lower_append.
    change (lower "spire/agent/tpm/") with ("spire/agent/" ++ "tpm" ++ "/").
    rewrite !append_assoc. apply str_in_middle. }
  rewrite Hc. split; [reflexivity|].
  destruct logs, device; split; reflexivity.
Qed.

Lemma accepted_agent_identity_is_active_witness :
  simulate_agent_parent_id_check
    "spiffe://example.org/spire/agent/tpm/a3f5d8c2e1b4" = true /\
  snd (simulate_verification_status_report
         (simulate_agent_parent_id_check
            "spiffe://example.org/spire/agent/tpm/a3f5d8c2e1b4") false false)
  = true /\
  has_word "ACTIVE"
    (fst (simulate_verification_status_report
            (simulate_agent_parent_id_check
               "spiffe://example.org/spire/agent/tpm/a3f5d8c2e1b4") false false))
  = true.
Proof.
  apply (accepted_agent_identity_is_active
           "spiffe://example.org/spire/agent/tpm/a3f5d8c2e1b4" false false).
  vm_compute. reflexivity.
Defined.

(** The converse fails: the parent-ID check passes identities the format
    validator rejects. *)
Example parent_check_weaker_than_format :
  simulate_agent_parent_id_check "spiffe://example.org/my-tpm-workload" = true /\
  validate_tpm_agent_spiffe_id_format "spiffe://example.org/my-tpm-workload"
  = false.
Proof. split; vm_compute; reflexivity. Qed.

End FormatToStatus.

(** ** Identity extraction, both ways *)

Section ExtractorMore.

Import MtlsDemo OwnIdentity.

Lemma first_spiffe_uri_app (l1 l2 : list (string * string)) :
  first_spiffe_uri (l1 ++ l2)
  = match first_spiffe_uri l1 with
    | Some v => Some v
    | None => first_spiffe_uri l2
    end.
Proof.
  induction l1 as [|e l1 IH]; [reflexivity|].
  change ((e :: l1) ++ l2)%list with (e :: (l1 ++ l2))%list.
  rewrite !first_spiffe_uri_cons.
  destruct (spiffe_uri_entry e); [reflexivity | exact IH].
Qed.

(** X11. Extraction over a concatenated entry list: the identity found in
    the first part wins, and only when the first part has none is the
    second part searched; entries added after a match never change the
    result. *)
Theorem extract_spiffe_id_of_append :
  forall (subj iss : option string) (l1 l2 : list (string * string)),
    extract_spiffe_id (with_san subj iss (l1 ++ l2))
    = match extract_spiffe_id (with_san subj iss l1) with
      | Some v => Some v
      | None => extract_spiffe_id (with_san subj iss l2)
      end.
Proof.
  intros subj iss l1 l2. unfold extract_spiffe_id, with_san.
  cbn [subjectAltName]. apply first_spiffe_uri_app.
Qed.

(** X12. The two extraction loops agree.  The identity a side reads for
    itself from the parsed extension equals what [extract_spiffe_id] reads
    from the peer-certificate dictionary of the same certificate, for every
    presentation of the entries that keeps their order, tags the URI names
    as URI with their value unchanged, and tags no other name as URI. *)
Theorem own_identity_agrees_with_extract :
  forall (entry : general_name -> string * string)
         (subj iss : option string) (names : list general_name),
    (forall v, entry (UniformResourceIdentifier v) = ("URI", v)) ->
    (forall n, (forall v, n <> UniformResourceIdentifier v) ->
               fst (entry n) <> "URI") ->
    own_spiffe_id (Some names)
    = extract_spiffe_id (with_san subj iss (map entry names)).
Proof.
  intros entry subj iss names Huri Hother.
  unfold own_spiffe_id, extract_spiffe_id, with_san. cbn [subjectAltName].
  induction names as [|n names IH]; [reflexivity|].
  cbn [map]. rewrite first_spiffe_uri_cons.
  destruct n as [v|v|v|v|v];
    try (unfold spiffe_uri_entry;
         match goal with
         | |- context [entry ?n] =>
             assert (fst (entry n) <> "URI") as Hn
               by (apply Hother; intros v'; discriminate)
         end;
         apply String.eqb_neq in Hn; rewrite Hn; exact IH).
  rewrite Huri. unfold spiffe_uri_entry. cbn [fst snd first_spiffe_name].
  rewrite String.eqb_refl. cbn [andb].
  destruct (startswith v "spiffe://"); [reflexivity | exact IH].
Qed.

Lemma own_identity_agrees_with_extract_witness :
  own_spiffe_id
    (Some [DNSName "spiffe://example.org/dns";
           UniformResourceIdentifier "https://example.org";
           UniformResourceIdentifier "spiffe://example.org/server"])
  = extract_spiffe_id
      (with_san None None
         (map peercert_entry
            [DNSName "spiffe://example.org/dns";
             UniformResourceIdentifier "https://example.org";
             UniformResourceIdentifier "spiffe://example.org/server"])).
Proof.
  apply (own_identity_agrees_with_extract peercert_entry None None).
  - intros v. reflexivity.
  - intros n Hn. destruct n as [v|v|v|v|v]; simpl;
      [exfalso; apply (Hn v); reflexivity | discriminate ..].
Defined.

End ExtractorMore.

(** ** Fetching the SVID *)

Section Fetch.

Lemma check_tpm_commands (o : run_outcome) :
  commands (fst (Phase4Fetch.check_tpm_attestation o)) = [probe_command].
Proof.
  destruct o as [r| |e]; cbn [Phase4Fetch.check_tpm_attestation];
    [destruct (_ || _)|..]; reflexivity.
Qed.

Lemma commands_app (a b : list action) :
  commands (a ++ b) = (commands a ++ commands b)%list.
Proof.
  induction a as [|x a IH]; [reflexivity|]. destruct x; simpl; now rewrite IH.
Qed.

Lemma commands_say (lines : list string) : commands (map Say lines) = [].
Proof. induction lines; [reflexivity | exact IHlines]. Qed.

(** X13. When the phase-4 fetch succeeds.  [fetch_svids] returns true
    exactly when the agent binary and socket exist, the working directory
    can be read and the fetch command completes with return code 0; what
    the TPM probe finds, or whether it fails, never changes the result. *)
Theorem fetch_svids_verdict :
  forall (env : fetch_env) (o : run_outcome),
    snd (Phase4Fetch.fetch_svids env)
    = binary_exists env && socket_exists env && cwd_known env
      && fetch_exit_zero env /\
    snd (Phase4Fetch.fetch_svids (with_probe env o))
    = snd (Phase4Fetch.fetch_svids env).
Proof.
  intros [b s cwd run probe] o.
  unfold Phase4Fetch.fetch_svids, with_probe, cwd_known, fetch_exit_zero.
  cbn [binary_exists socket_exists getcwd fetch_run attest_run].
  destruct b, s, cwd as [d|e], run as [r| |e']; cbn [negb andb];
    try (split; reflexivity).
  destruct (returncode r =? 0)%Z; cbn [negb].
  - destruct (Phase4Fetch.check_tpm_attestation probe),
             (Phase4Fetch.check_tpm_attestation o).
    split; reflexivity.
  - split; reflexivity.
Qed.

(** X14. Which commands the phase-4 fetch runs.  Nothing is run when the
    binary or the socket is missing or the working directory cannot be
    read; otherwise the fetch command is run once, and the TPM probe is run
    after it exactly when the fetch completed with return code 0. *)
Theorem fetch_svids_commands :
  forall env : fetch_env,
    commands (fst (Phase4Fetch.fetch_svids env))
    = match getcwd env with
      | Exn.Ok dir =>
          if binary_exists env && socket_exists env then
            fetch_command dir
            :: (if fetch_exit_zero env then [probe_command] else [])
          else []
      | Exn.Raise _ => []
      end.
Proof.
  intros [b s cwd run probe].
  unfold Phase4Fetch.fetch_svids, fetch_exit_zero.
  cbn [binary_exists socket_exists getcwd fetch_run attest_run].
  destruct b, s, cwd as [d|e], run as [r| |e']; cbn [negb andb];
    try reflexivity.
  destruct (returncode r =? 0)%Z; cbn [negb].
  - pose proof (check_tpm_commands probe) as Hp.
    destruct (Phase4Fetch.check_tpm_attestation probe) as [acts active].
    cbn [fst commands] in *.
    rewrite commands_app, Hp. now destruct active.
  - cbn [fst commands]. fold (fetch_command d). f_equal.
    destruct (Phase4Fetch.looks_like_pcr_mismatch (stderr r));
      [apply commands_say | reflexivity].
Qed.

(** X15. The TPM additions of phase 4 did not change the decision.  The
    two functions run different commands, phase 3 writing to [/app] and
    phase 4 to the working directory; whenever the binary and socket
    checks answer alike and the two commands end alike, phase 4 returns
    what phase 3 returns, provided the working directory, which only
    phase 4 asks for, can be read. *)
Theorem fetch_svids_same_verdict_as_phase3 :
  forall (e3 : Phase3Fetch.env) (e4 : fetch_env),
    Phase3Fetch.agent_binary_exists e3 = binary_exists e4 ->
    Phase3Fetch.agent_socket_exists e3 = socket_exists e4 ->
    Phase3Fetch.run e3 = fetch_run e4 ->
    snd (Phase4Fetch.fetch_svids e4)
    = snd (Phase3Fetch.fetch_svids e3) && cwd_known e4.
Proof.
  intros [b3 s3 run3] [b s cwd run probe]. cbn. intros -> -> ->.
  unfold Phase4Fetch.fetch_svids, Phase3Fetch.fetch_svids, cwd_known.
  cbn [binary_exists socket_exists getcwd fetch_run attest_run
       Phase3Fetch.agent_binary_exists Phase3Fetch.agent_socket_exists
       Phase3Fetch.run].
  destruct b, s, cwd as [d|e], run as [r| |e']; cbn [negb andb orb];
    try reflexivity;
    destruct (returncode r =? 0)%Z; cbn [negb]; try reflexivity;
    destruct (Phase4Fetch.check_tpm_attestation probe); reflexivity.
Qed.

Lemma fetch_svids_same_verdict_as_phase3_witness :
  snd (Phase4Fetch.fetch_svids
         {| binary_exists := true; socket_exists := true;
            getcwd := Exn.Ok "/home/demo";
            fetch_run :=
              Completed {| returncode := 0; stdout := "Received 1 svid";
                           stderr := "" |};
            attest_run := TimeoutExpired |})
  = snd (Phase3Fetch.fetch_svids
           {| Phase3Fetch.agent_binary_exists := true;
              Phase3Fetch.agent_socket_exists := true;
              Phase3Fetch.run :=
                Completed {| returncode := 0; stdout := "Received 1 svid";
                             stderr := "" |} |})
    && cwd_known
         {| binary_exists := true; socket_exists := true;
            getcwd := Exn.Ok "/home/demo";
            fetch_run :=
              Completed {| returncode := 0; stdout := "Received 1 svid";
                           stderr := "" |};
            attest_run := TimeoutExpired |}.
Proof.
  apply (fetch_svids_same_verdict_as_phase3
           {| Phase3Fetch.agent_binary_exists := true;
              Phase3Fetch.agent_socket_exists := true;
              Phase3Fetch.run :=
                Completed {| returncode := 0; stdout := "Received 1 svid";
                             stderr := "" |} |}
           {| binary_exists := true; socket_exists := true;
              getcwd := Exn.Ok "/home/demo";
              fetch_run :=
                Completed {| returncode := 0; stdout := "Received 1 svid";
                             stderr := "" |};
              attest_run := TimeoutExpired |});
    reflexivity.
Defined.

Lemma looks_like_marker (marker pre post text : string) :
  In marker ["pcr"; "mismatch"; "permission denied"] ->
  lower text = pre ++ marker ++ post ->
  Phase4Fetch.looks_like_pcr_mismatch text = true.
Proof.
  intros Hin E. unfold Phase4Fetch.looks_like_pcr_mismatch. rewrite E.
  cbn in Hin. destruct Hin as [<- | [<- | [<- | []]]];
    rewrite str_in_middle; rewrite ?orb_true_r; reflexivity.
Qed.

(** X16. What counts as a PCR mismatch.  A fetch that completes with a
    non-zero return code is reported as a PCR mismatch, with the
    troubleshooting block, whenever its standard error contains pcr,
    mismatch or permission denied in any letter case and anywhere in the
    text; the function then returns false. *)
Theorem failed_fetch_reported_as_pcr_mismatch :
  forall (env : fetch_env) (dir : string) (result : completed_process)
         (marker pre post : string),
    binary_exists env = true -> socket_exists env = true ->
    getcwd env = Exn.Ok dir -> fetch_run env = Completed result ->
    returncode result <> 0%Z ->
    In marker ["pcr"; "mismatch"; "permission denied"] ->
    lower (stderr result) = pre ++ marker ++ post ->
    exists head,
      fst (Phase4Fetch.fetch_svids env)
      = (head ++ Phase4Fetch.pcr_mismatch_report (stderr result))%list /\
      snd (Phase4Fetch.fetch_svids env) = false.
Proof.
  intros env dir r marker pre post Hb Hs Hc Hr Hrc Hin E.
  unfold Phase4Fetch.fetch_svids. rewrite Hb, Hs, Hc, Hr. cbn [negb].
  apply Z.eqb_neq in Hrc. rewrite Hrc. cbn [negb].
  rewrite (looks_like_marker _ _ _ _ Hin E).
  eexists [_; _; _; _]. split; reflexivity.
Qed.

Lemma failed_fetch_reported_as_pcr_mismatch_witness :
  exists head,
    fst (Phase4Fetch.fetch_svids
           {| binary_exists := true; socket_exists := true;
              getcwd := Exn.Ok "/app";
              fetch_run :=
                Completed {| returncode := 1; stdout := "";
                             stderr := "open api.sock: Permission denied" |};
              attest_run := TimeoutExpired |})
    = (head ++ Phase4Fetch.pcr_mismatch_report
                 "open api.sock: Permission denied")%list /\
    snd (Phase4Fetch.fetch_svids
           {| binary_exists := true; socket_exists := true;
              getcwd := Exn.Ok "/app";
              fetch_run :=
                Completed {| returncode := 1; stdout := "";
                             stderr := "open api.sock: Permission denied" |};
              attest_run := TimeoutExpired |}) = false.
Proof.
  apply (failed_fetch_reported_as_pcr_mismatch
           {| binary_exists := true; socket_exists := true;
              getcwd := Exn.Ok "/app";
              fetch_run :=
                Completed {| returncode := 1; stdout := "";
                             stderr := "open api.sock: Permission denied" |};
              attest_run := TimeoutExpired |}
           "/app"
           {| returncode := 1; stdout := "";
              stderr := "open api.sock: Permission denied" |}
           "permission denied" "open api.sock: " "");
    try reflexivity.
  - discriminate.
  - simpl. tauto.
Defined.

(** X17. When the phase-2 fetch succeeds, fails or crashes.  It returns
    true exactly when the command succeeds and all three credential files
    exist, and false for the two exceptions it handles and for missing
    files; any other exception of the command, and a failure to list
    [/app] while files are missing, is not caught. *)
Theorem phase2_fetch_svids_verdict :
  forall e : Phase2Fetch.env,
    snd (Phase2Fetch.fetch_svids e)
    = match Phase2Fetch.call e with
      | Phase2Fetch.CallOk =>
          if forallb (Phase2Fetch.file_exists e) Phase2Fetch.required_files
          then Exn.Ok true
          else match Phase2Fetch.listdir_app e with
               | Exn.Ok _ => Exn.Ok false
               | Exn.Raise err => Exn.Raise err
               end
      | Phase2Fetch.CalledProcessError _ => Exn.Ok false
      | Phase2Fetch.FileNotFoundError => Exn.Ok false
      | Phase2Fetch.OtherError err => Exn.Raise err
      end.
Proof.
  intros [call ex ls]. unfold Phase2Fetch.fetch_svids.
  cbn [Phase2Fetch.call Phase2Fetch.file_exists Phase2Fetch.listdir_app].
  destruct call; try reflexivity.
  unfold Phase2Fetch.required_files. cbn [filter forallb].
  destruct (ex "svid.0.pem"), (ex "svid.0.key"), (ex "bundle.0.pem");
    cbn [negb andb]; try reflexivity; destruct ls; reflexivity.
Qed.

End Fetch.

(** ** What the responder sends *)

Section Sessions.

Import MtlsDemo.






End Sessions.

(** ** Failures stay within their session *)

Section Robustness.

Import MtlsDemo.

Lemma serve_error_lines (c : nat) (o : accept_outcome) :
  List.length (filter is_connection_error (serve c o))
  = if (progress true o =? 5)%nat then 0 else 1.
Proof.
  destruct o as [[addr [] [[s|] [i|] san] [] [d|] [] []] | e];
    try reflexivity;
    unfold serve, serve_body; cbn [peer_cert subject issuer];
    destruct (extract_spiffe_id _); reflexivity.
Qed.

(** X20. A failure never stops the phase-4 loop.  Whatever happens in the
    earlier turns, every connection that [accept] returns is accepted, in
    order, and the responder makes exactly one call of [print] whose text
    begins with its connection-error label for each turn that did not
    complete its exchange, and none for a turn that did. *)
Theorem responder_survives_failures :
  forall (c : nat) (incoming : list accept_outcome),
    accepts (run_server_loop c incoming)
    = map fst (filter (fun co => is_accepted (snd co))
                      (combine (seq c (List.length incoming)) incoming)) /\
    List.length (filter is_connection_error (run_server_loop c incoming))
    = List.length
        (filter (fun o => negb (progress true o =? 5)%nat) incoming).
Proof.
  intros c incoming. split; [apply loop_accepts|]. revert c.
  induction incoming as [|o rest IH]; intros c; [reflexivity|].
  cbn [run_server_loop filter].
  rewrite filter_app, length_app, serve_error_lines, (IH (S c)).
  destruct (progress true o =? 5)%nat; reflexivity.
Qed.

End Robustness.

(** ** The initiator *)

Section Initiator.


End Initiator.

(** ** Letter case of the digest in a selector *)

Section SelectorCase.

Lemma cut_some (sep : ascii) (s x y : string) :
  cut sep s = Some (x, y) -> free_of sep x = true /\ s = x ++ String sep y.
Proof.
  revert x y. induction s as [|d s IH]; intros x y; simpl; [discriminate|].
  destruct (Ascii.eqb_spec d sep) as [->|Hd].
  - intros [= <- <-]. split; reflexivity.
  - destruct (cut sep s) as [[a b]|]; [|discriminate].
    intros [= <- <-]. destruct (IH a b eq_refl) as [Hf ->].
    split; [|reflexivity]. simpl.
    apply Ascii.eqb_neq in Hd. now rewrite Hd, Hf.
Qed.

(** The digest part of an accepted selector: hexadecimal, of an accepted
    length, with at most a final line feed after it. *)
Let digest_ok (h : string) : Prop :=
  exists h' eol,
    h = h' ++ eol /\ all_chars (in_class hexdigit) h' = true /\
    In (String.length h') valid_hash_lengths /\ at_eol eol = true.

Lemma selector_verdict (idx h : string) :
  free_of ":" idx = true ->
  validate_pcr_selector_format ("tpm:pcr:" ++ idx ++ ":" ++ h) = true <->
  In idx pcr_indices /\ digest_ok h.
Proof.
  intros Hidx. split.
  - intros H.
    destruct (re_match pcr_selector_pattern ("tpm:pcr:" ++ idx ++ ":" ++ h))
      as [m|] eqn:E;
      [|unfold validate_pcr_selector_format in H; now rewrite E in H].
    pose proof E as E'.
    apply re_match_sound in E' as (w & rest & Es & Hm).
    apply selector_pattern_matches in Hm
      as (idx' & h' & -> & Hi & _ & Hh & He & _).
    rewrite Es in H, E.
    rewrite (validate_after_match _ rest idx' h') in H; auto; [|congruence].
    apply valid_length_spec in H.
    rewrite !append_assoc in Es. apply append_inv_head in Es.
    change (":" ++ ?x) with (String ":" x) in Es.
    assert (cut ":" (idx ++ String ":" h)
            = cut ":" (idx' ++ String ":" (h' ++ rest))) as C by now rewrite Es.
    rewrite !cut_at in C by (auto; now apply index_facts).
    injection C as -> ->.
    split; [exact Hi|]. now exists h', rest.
  - intros (Hi & h' & eol & -> & Hh & Hl & He).
    assert (h' <> "") as Hne.
    { intros ->. cbn in Hl. intuition discriminate. }
    replace ("tpm:pcr:" ++ idx ++ ":" ++ h' ++ eol)
      with (("tpm:pcr:" ++ idx ++ ":" ++ h') ++ eol)
      by now rewrite !append_assoc.
    rewrite (validate_after_match _ eol idx h'); auto.
    + now apply valid_length_spec.
    + apply re_match_complete with (m := [(2, h'); (1, idx)]).
      apply selector_pattern_matches. exists idx, h'. auto 10.
Qed.

Lemma hex_lower_char (c : ascii) :
  in_class hexdigit (lower_char c) = in_class hexdigit c.
Proof. destruct c as [[] [] [] [] [] [] [] []]; reflexivity. Qed.

Lemma hex_lower (s : string) :
  all_chars (in_class hexdigit) (lower s) = all_chars (in_class hexdigit) s.
Proof.
  induction s as [|c s IH]; [reflexivity|]. cbn [lower all_chars].
  now rewrite hex_lower_char, IH.
Qed.

Lemma length_lower (s : string) : String.length (lower s) = String.length s.
Proof. induction s as [|c s IH]; simpl; [reflexivity | now rewrite IH]. Qed.

Lemma newline_lower_char (c : ascii) :
  Ascii.eqb (lower_char c) newline = Ascii.eqb c newline.
Proof. destruct c as [[] [] [] [] [] [] [] []]; reflexivity. Qed.

Lemma at_eol_lower (s : string) : at_eol (lower s) = at_eol s.
Proof.
  destruct s as [|c [|d s]]; cbn [lower at_eol]; [reflexivity | | reflexivity].
  apply newline_lower_char.
Qed.

Lemma lower_split (s a b : string) :
  lower s = a ++ b ->
  exists s1 s2, s = s1 ++ s2 /\ lower s1 = a /\ lower s2 = b.
Proof.
  revert s. induction a as [|x a IH]; intros s E.
  - now exists "", s.
  - destruct s as [|c s]; [discriminate|]. simpl in E.
    injection E as Ec E. destruct (IH _ E) as (s1 & s2 & -> & <- & <-).
    exists (String c s1), s2. simpl. now rewrite Ec.
Qed.

Lemma digest_ok_lower (h : string) : digest_ok (lower h) <-> digest_ok h.
Proof.
  split.
  - intros (a & eol & E & Ha & Hl & He).
    apply lower_split in E as (s1 & s2 & -> & <- & <-).
    exists s1, s2. rewrite hex_lower in Ha. rewrite length_lower in Hl.
    rewrite at_eol_lower in He. auto.
  - intros (a & eol & -> & Ha & Hl & He).
    exists (lower a), (lower eol).
    rewrite hex_lower, length_lower, at_eol_lower, lower_append. auto.
Qed.

Lemma colon_in_digest_rejected (idx h : string) :
  free_of ":" idx = false ->
  validate_pcr_selector_format ("tpm:pcr:" ++ idx ++ ":" ++ h) = false.
Proof.
  intros Hidx.
  destruct (cut ":" idx) as [[a b]|] eqn:C.
  - apply cut_some in C as [Ha ->].
    replace ("tpm:pcr:" ++ (a ++ String ":" b) ++ ":" ++ h)
      with ("tpm:pcr:" ++ a ++ ":" ++ (b ++ ":" ++ h))
      by (rewrite !append_assoc; reflexivity).
    destruct (validate_pcr_selector_format _) eqn:V; [|reflexivity].
    apply (selector_verdict a _ Ha) in V as (_ & h' & eol & E & Hh & _ & He).
    exfalso.
    assert (free_of ":" (h' ++ eol) = true) as F.
    { rewrite free_of_append.
      rewrite (all_chars_free_of _ ":"%char _ eq_refl Hh).
      apply at_eol_spec in He as [-> | ->]; reflexivity. }
    rewrite <- E, free_of_append in F.
    apply andb_true_iff in F as [_ F]. simpl in F. discriminate.
  - exfalso. pose proof (cut_count ":" idx) as H. rewrite C in H.
    clear C. induction idx as [|c idx IH]; simpl in *; [discriminate|].
    destruct (Ascii.eqb c ":"); [discriminate|]. simpl in *. auto.
Qed.

(** X22. The selector validator ignores the letter case of the digest: a
    selector and the same selector with its digest lowercased get the same
    verdict, whatever the index text and the digest are. *)
Theorem pcr_selector_digest_case_insensitive :
  forall idx h : string,
    validate_pcr_selector_format ("tpm:pcr:" ++ idx ++ ":" ++ lower h)
    = validate_pcr_selector_format ("tpm:pcr:" ++ idx ++ ":" ++ h).
Proof.
  intros idx h. destruct (free_of ":" idx) eqn:Hidx.
  - pose proof (selector_verdict idx h Hidx) as V1.
    pose proof (selector_verdict idx (lower h) Hidx) as V2.
    rewrite digest_ok_lower in V2.
    destruct (validate_pcr_selector_format ("tpm:pcr:" ++ idx ++ ":" ++ h));
      destruct (validate_pcr_selector_format
                  ("tpm:pcr:" ++ idx ++ ":" ++ lower h));
      try reflexivity.
    + apply V2, V1. reflexivity.
    + symmetry. apply V1, V2. reflexivity.
  - now rewrite !colon_in_digest_rejected.
Qed.

Example pcr_selector_case_examples :
  validate_pcr_selector_format
    "tpm:pcr:7:ABCDEF0123456789ABCDEF0123456789" = true /\
  validate_pcr_selector_format
    "tpm:pcr:7:abcdef0123456789abcdef0123456789" = true /\
  validate_pcr_selector_format
    "tpm:pcr:7:AbCdEf0123456789aBcDeF0123456789" = true.
Proof. repeat split; vm_compute; reflexivity. Qed.

End SelectorCase.
